(** * hull-node: the notification pipeline of [src/notif-handler.js]

    A shallow embedding of the connect pipeline built by [NotifHandler]:
    [errorHandler], [parseRequest], [verifySignature],
    [enrichWithHullClient], [processHandlers] and the final acknowledgement,
    together with the handler registry and the event-name derivation
    [getHandlerName]. *)

From stdpp Require Import gmap strings list fin_maps.
From Stdlib Require Import ZArith Lia Ascii String.

Set Warnings "-register-all".
Local Open Scope string_scope.
Local Open Scope list_scope.

(** ** JavaScript values

    The values the pipeline handles are those produced by [JSON.parse]
    (envelope, nested payload), the parsed query string, and the [Date]
    built by [verifySignature].  [VUndefined] is the result of reading an
    absent property.  Numbers are kept as integers: the code only tests
    them for truthiness and compares a [length] with [0].  A string is held
    as the bytes of its UTF-8 text.  An object is the list of its own
    properties; a property is read at its first occurrence. *)
Inductive value : Type :=
| VUndefined
| VNull
| VBool (b : bool)
| VNum (n : Z)
| VStr (s : string)
| VArr (items : list value)
| VObj (props : list (string * value))
| VDate (arg : value).

(** ToBoolean, as used by [!x], [x && y], [x || y] and [if (x)]. *)
Definition truthy (v : value) : bool :=
  match v with
  | VUndefined | VNull => false
  | VBool b => b
  | VNum n => negb (n =? 0)%Z
  | VStr s => negb (String.eqb s "")
  | VArr _ | VObj _ | VDate _ => true
  end.

Fixpoint lookup_prop (k : string) (props : list (string * value)) : value :=
  match props with
  | [] => VUndefined
  | (k', v) :: rest => if String.eqb k k' then v else lookup_prop k rest
  end.

Fixpoint assign_prop (k : string) (v : value) (props : list (string * value))
  : list (string * value) :=
  match props with
  | [] => [(k, v)]
  | (k', v') :: rest =>
      if String.eqb k k' then (k, v) :: rest else (k', v') :: assign_prop k v rest
  end.

(** [v.k] or [v[k]], for the keys the code reads from parsed values:
    [None] is the [TypeError] raised on [undefined] and [null]; arrays and
    strings answer [length], arrays answer ["0"]. *)
Definition prop (v : value) (k : string) : option value :=
  match v with
  | VUndefined | VNull => None
  | VObj props => Some (lookup_prop k props)
  | VArr items =>
      if String.eqb k "length" then Some (VNum (Z.of_nat (List.length items)))
      else if String.eqb k "0" then Some (hd VUndefined items)
      else Some VUndefined
  | VStr s =>
      if String.eqb k "length" then Some (VNum (Z.of_nat (String.length s)))
      else Some VUndefined
  | VBool _ | VNum _ | VDate _ => Some VUndefined
  end.

(** ** Built-in objects and exceptions

    The object literals of the code ([ModelsMapping], [_handlers]) and the
    array [_cache] answer a key they do not own from their prototype.  What
    [Object.prototype] holds is fixed: eleven functions, given here by name
    and number of parameters, and under [__proto__] the prototype object
    itself. *)
Inductive native : Type :=
| NFunction (name : string) (arity : nat)
| NObjectPrototype.

Definition Object_prototype_properties : list (string * native) :=
  [("constructor", NFunction "Object" 1);
   ("hasOwnProperty", NFunction "hasOwnProperty" 1);
   ("isPrototypeOf", NFunction "isPrototypeOf" 1);
   ("propertyIsEnumerable", NFunction "propertyIsEnumerable" 1);
   ("toLocaleString", NFunction "toLocaleString" 0);
   ("toString", NFunction "toString" 0);
   ("valueOf", NFunction "valueOf" 0);
   ("__defineGetter__", NFunction "__defineGetter__" 2);
   ("__defineSetter__", NFunction "__defineSetter__" 2);
   ("__lookupGetter__", NFunction "__lookupGetter__" 1);
   ("__lookupSetter__", NFunction "__lookupSetter__" 1);
   ("__proto__", NObjectPrototype)].

Fixpoint assoc {A : Type} (k : string) (l : list (string * A)) : option A :=
  match l with
  | [] => None
  | (k', a) :: rest => if String.eqb k k' then Some a else assoc k rest
  end.

(** What [({})[k]] reads for a key the object does not own. *)
Definition Object_prototype (k : string) : option native :=
  assoc k Object_prototype_properties.

(** The exceptions the engine raises in this code. *)
Inductive fault : Type :=
| ReadOf (v : value) (k : string)
  (** reading property [k] of [v], which is [undefined] or [null] *)
| NotAFunction (callee : string)
  (** calling the expression [callee], which is no function *)
| InvalidArrayLength.
  (** storing under [length] what is no array length *)

(** What the engine and the modules outside this file compute. *)
Record engine : Type := {
  (** [JSON.parse(x)]: [None] when it throws. *)
  JSON_parse : value -> option value;
  (** [group] of [./trait], applied to the payload's [user]. *)
  group : value -> value;
  (** [x > 0] for an [x] that first needs a string-to-number conversion. *)
  coerced_gt0 : value -> bool;
  (** The property key a value that is not a string converts to. *)
  coerced_key : value -> string;
  (** The text a built-in value converts to. *)
  native_text : native -> string;
  (** [err.toString()] of the exception raised for a fault. *)
  fault_text : fault -> string;
  (** Whether [Array.prototype] holds a property of this name. *)
  array_method : string -> bool
}.

(** ** Event names: [getHandlerName] *)

(** [String.prototype.split] with a one-character separator. *)
Fixpoint split (sep : ascii) (s : string) : list string :=
  match s with
  | EmptyString => [EmptyString]
  | String c rest =>
      if Ascii.eqb c sep then EmptyString :: split sep rest
      else match split sep rest with
           | [] => [String c EmptyString]
           | part :: parts => String c part :: parts
           end
  end.

(** An entry of the array [[model, action]]: a string, or the built-in
    value the table answered for an inherited key. *)
Inductive piece : Type :=
| PStr (s : string)
| PNative (n : native).

(** [_.compact]: the falsy entries, [undefined] and the empty string, are
    dropped; a built-in value is truthy. *)
Fixpoint compact (xs : list (option piece)) : list piece :=
  match xs with
  | [] => []
  | None :: rest => compact rest
  | Some (PStr s) :: rest =>
      if String.eqb s "" then compact rest else PStr s :: compact rest
  | Some (PNative n) :: rest => PNative n :: compact rest
  end.

Definition piece_text (E : engine) (p : piece) : string :=
  match p with
  | PStr s => s
  | PNative n => native_text E n
  end.

(** [Array.prototype.join]. *)
Fixpoint join (E : engine) (sep : string) (parts : list piece) : string :=
  match parts with
  | [] => ""
  | [p] => piece_text E p
  | p :: rest => (piece_text E p ++ sep ++ join E sep rest)%string
  end.

(** The own properties of the object literal [ModelsMapping]. *)
Definition ModelsMapping : gmap string string :=
  <["user_report" := "user"]> (<["users_segment" := "segment"]> ∅).

(** [ModelsMapping[modelName] || modelName]. *)
Definition mapped_model (modelName : string) : piece :=
  match ModelsMapping !! modelName with
  | Some m => if String.eqb m "" then PStr modelName else PStr m
  | None =>
      match Object_prototype modelName with
      | Some n => PNative n
      | None => PStr modelName
      end
  end.

Definition getHandlerName (E : engine) (eventName : string) : string :=
  let parts := split ":"%char eventName in
  let modelName := hd "" parts in
  let action := nth_error parts 1 in
  let model := mapped_model modelName in
  join E ":" (compact [Some model; option_map PStr action]).

(** ** Requests, errors and the effects of a stage *)

(** [new Client({organization, id, secret})] of [./client]. *)
Record Client : Type := {
  organization : value;
  id : value;
  secret : value
}.

(** [req.hull]; a field that was never assigned is [undefined] ([None] for
    the client). *)
Record hull_context : Type := {
  message : value;
  notification : value;
  client : option Client;
  ship : value
}.

Record request : Type := {
  query : list (string * value);
  hull : hull_context
}.

(** The second argument of every handler: [{req, ship, hull: client}]. *)
Record context : Type := {
  ctx_req : request;
  ctx_ship : value;
  ctx_hull : option Client
}.

(** An error value, as far as the code reads it: [err.toString()] and
    [err.status]. *)
Record error : Type := {
  toString : string;
  status : value
}.

(** Calling a handler either throws or hands back its work, a promise
    whose settlement comes later. *)
Inductive call_result : Type :=
| Threw (e : error)
| Returned.

Definition handler : Type := value -> context -> call_result.

(** What a stage does to the outside, in order: [console.warn], the
    observer [onError(message, status)], [options.onSubscribe(req)], the GET
    of the handshake, and the call of a handler.  The observer and the
    subscription callback are taken to return; only handlers are called
    inside a [try]. *)
Inductive effect : Type :=
| Warned (text : string) (m : value)
| Observed (text : string) (code : value)
| Subscribed (req : request)
| HttpsGet (url : value)
| Invoked (fn : handler) (payload : value) (ctx : context).

(** A stage ends in one of four ways: it calls [next()], it sends the
    response ([res.status], [res.end]), it does neither, or an exception
    leaves it; what connect does with such an exception is not part of
    this file. *)
Inductive outcome : Type :=
| Next (req : request)
| Responded (code : value) (body : string)
| Stalled
| Escaped (f : fault).

Record result : Type := {
  effects : list effect;
  outcome_of : outcome
}.

Definition continue (req : request) : result :=
  {| effects := []; outcome_of := Next req |}.

Definition after (es : list effect) (r : result) : result :=
  {| effects := es ++ effects r; outcome_of := outcome_of r |}.

(** [res.end(body)] on a response whose status was not set: 200. *)
Definition res_end (body : string) : result :=
  {| effects := []; outcome_of := Responded (VNum 200) body |}.

(** [errorHandler(onError)] installs [res.handleError] and calls [next()];
    [onError] tells whether an observer was given.  The stages below take
    the installed function as [handleError]. *)
Definition errorHandler (onError : bool) (text : string) (code : value) : result :=
  {| effects := if onError then [Observed text code] else [];
     outcome_of := Responded code text |}.

Definition with_message (req : request) (m : value) : request :=
  {| query := query req;
     hull := {| message := m; notification := notification (hull req);
                client := client (hull req); ship := ship (hull req) |} |}.

Definition with_notification (req : request) (n : value) : request :=
  {| query := query req;
     hull := {| message := message (hull req); notification := n;
                client := client (hull req); ship := ship (hull req) |} |}.

Definition with_client (req : request) (c : Client) : request :=
  {| query := query req;
     hull := {| message := message (hull req);
                notification := notification (hull req);
                client := Some c; ship := ship (hull req) |} |}.

Definition with_ship (req : request) (s : value) : request :=
  {| query := query req;
     hull := {| message := message (hull req);
                notification := notification (hull req);
                client := client (hull req); ship := s |} |}.

(** ** [parseRequest] *)

(** What [rawBody(req, true, cb)] hands to its callback. *)
Inductive read_result : Type :=
| ReadFailed
| ReadText (body : string).

Definition parseRequest (E : engine) (handleError : string -> value -> result)
    (read : read_result) (req : request) : result :=
  match read with
  | ReadFailed => handleError "Invalid body" (VNum 400)
  | ReadText body =>
      match JSON_parse E (VStr body) with
      | None => handleError "Invalid body" (VNum 400)
      | Some m => continue (with_message req m)
      end
  end.

(** ** [verifySignature] *)

Record verify_options : Type := {
  onSubscribe : bool;
  enforceValidation : bool;
  groupTraits : bool
}.

Definition is_string (v : value) (s : string) : bool :=
  match v with
  | VStr s' => String.eqb s' s
  | _ => false
  end.

Definition field (v : value) (k : string) : value :=
  match prop v k with
  | Some x => x
  | None => VUndefined
  end.

(** The payload with [payload.user = group(payload.user)] when the payload
    and its [user] are truthy and grouping is on. *)
Definition grouped (E : engine) (opts : verify_options) (payload : value) : value :=
  if truthy payload && truthy (field payload "user") && groupTraits opts then
    match payload with
    | VObj props => VObj (assign_prop "user" (group E (field payload "user")) props)
    | _ => payload
    end
  else payload.

(** The part of the validator's callback after the signature check.
    [https.get(url, f, g)] registers [f] for the response and has no use
    for [g]: when the GET succeeds [f] runs, when it fails nothing of this
    file runs and no response is sent. *)
Definition route (E : engine) (opts : verify_options)
    (handleError : string -> value -> result) (handshake : bool)
    (req : request) : result :=
  let m := message (hull req) in
  if is_string (field m "Type") "SubscriptionConfirmation" then
    after [HttpsGet (field m "SubscribeURL")]
      (if handshake then
         after (if onSubscribe opts then [Subscribed req] else [])
               (res_end "subscribed")
       else {| effects := []; outcome_of := Stalled |})
  else if is_string (field m "Type") "Notification" then
    match JSON_parse E (field m "Message") with
    | None => handleError "Invalid message" (VNum 400)
    | Some payload =>
        continue (with_notification req
          (VObj [("subject", field m "Subject");
                 ("message", grouped E opts payload);
                 ("timestamp", VDate (field m "Timestamp"))]))
    end
  else {| effects := []; outcome_of := Stalled |}.

(** [validation] is what [validator.validate] passes to its callback
    ([None]: the signature is valid); [handshake] tells whether the GET on
    [SubscribeURL] succeeds. *)
Definition verifySignature (E : engine) (opts : verify_options)
    (handleError : string -> value -> result)
    (validation : option error) (handshake : bool) (req : request) : result :=
  if negb (truthy (message (hull req))) then
    handleError "Empty Message" (VNum 400)
  else
    match validation with
    | Some err =>
        if enforceValidation opts then handleError (toString err) (VNum 400)
        else after [Warned "Invalid signature error" (message (hull req))]
                   (route E opts handleError handshake req)
    | None => route E opts handleError handshake req
    end.

(** ** [enrichWithHullClient] and its cache *)

(** A property of [_cache] put there by the code: [null], the promise
    returned by a call of [client.get] (named by the position of that call
    among all fetches), or a built-in value read from the prototype and
    stored back. *)
Inductive slot : Type :=
| SNull
| SPromise (p : nat)
| SNative.

#[global] Instance slot_eq_dec : EqDecision slot.
Proof. solve_decision. Defined.

(** The state shared by all requests of one pipeline: the properties the
    code has set on the array [_cache], whether the array has lost its
    prototype, and, in order, the fetches issued so far
    ([client.get(shipId)]). *)
Record tenant_state : Type := {
  _cache : gmap string slot;
  detached : bool;
  fetches : list (Client * value)
}.

Definition property_key (E : engine) (v : value) : string :=
  match v with
  | VStr s => s
  | _ => coerced_key E v
  end.

Definition digit_of (c : ascii) : option N :=
  let n := N_of_ascii c in
  if (48 <=? n)%N && (n <=? 57)%N then Some (n - 48)%N else None.

Fixpoint digits (s : string) (acc : N) : option N :=
  match s with
  | EmptyString => Some acc
  | String c rest =>
      match digit_of c with
      | Some d => digits rest (acc * 10 + d)%N
      | None => None
      end
  end.

(** An array index: the decimal text, without leading zero, of a number
    below [2^32 - 1]. *)
Definition is_array_index (k : string) : bool :=
  match k with
  | EmptyString => false
  | String c rest =>
      if Ascii.eqb c "0" then String.eqb rest ""
      else match digits k 0 with
           | Some n => (n <=? 4294967294)%N
           | None => false
           end
  end.

(** Whether the array has an element, that is, whether its [length] is
    not [0]. *)
Definition has_index (cache : gmap string slot) : bool :=
  existsb (fun kv => is_array_index (fst kv)) (map_to_list cache).

(** Whether an array answers the key from its prototype chain. *)
Definition array_inherits (E : engine) (key : string) : bool :=
  array_method E key || bool_decide (is_Some (Object_prototype key)).

(** What [_cache[key]] reads. *)
Inductive cell : Type :=
| CUndefined
| CNull
| CPromise (p : nat)
| CBuiltin
| CLength (positive : bool).

Definition cache_get (E : engine) (st : tenant_state) (key : string) : cell :=
  if String.eqb key "length" then CLength (has_index (_cache st))
  else match _cache st !! key with
       | Some SNull => CNull
       | Some (SPromise p) => CPromise p
       | Some SNative => CBuiltin
       | None =>
           if negb (detached st) && array_inherits E key then CBuiltin
           else CUndefined
       end.

Definition set_cache (st : tenant_state) (cache : gmap string slot) : tenant_state :=
  {| _cache := cache; detached := detached st; fetches := fetches st |}.

(** [_cache[key] = null]: storing under [length] empties the array of
    its elements; storing under [__proto__], when the array does not own
    it, takes the prototype away; any other store sets the property. *)
Definition cache_clear (key : string) (st : tenant_state) : tenant_state :=
  if String.eqb key "length" then
    set_cache st
      (filter (fun kv : string * slot => is_array_index (fst kv) = false) (_cache st))
  else if String.eqb key "__proto__" && negb (detached st)
          && bool_decide (_cache st !! key = None) then
    {| _cache := _cache st; detached := true; fetches := fetches st |}
  else set_cache st (<[key := SNull]> (_cache st)).

(** [_cache[key] = v] for the built-in value [v] just read under [key]:
    under [__proto__] the prototype is set to what it is; under any other
    key the array now owns the value. *)
Definition cache_keep_builtin (key : string) (st : tenant_state) : tenant_state :=
  if String.eqb key "__proto__" && bool_decide (_cache st !! key = None) then st
  else set_cache st (<[key := SNative]> (_cache st)).

(** What [getCurrentShip] hands back: a promise, a value that is no
    promise (a built-in function or object, a number), or an exception. *)
Inductive resolution : Type :=
| Thenable (p : nat)
| NotThenable
| Throws (f : fault).

Definition getCurrentShip (E : engine) (shipId : value) (c : Client)
    (forceUpdate : bool) (st : tenant_state) : resolution * tenant_state :=
  let key := property_key E shipId in
  let st1 := if forceUpdate then cache_clear key st else st in
  match cache_get E st1 key with
  | CPromise p => (Thenable p, set_cache st1 (<[key := SPromise p]> (_cache st1)))
  | CBuiltin => (NotThenable, cache_keep_builtin key st1)
  | CLength true => (NotThenable, st1)
  | CUndefined | CNull | CLength false =>
      let p := List.length (fetches st1) in
      let st2 := {| _cache := _cache st1; detached := detached st1;
                    fetches := fetches st1 ++ [(c, shipId)] |} in
      if String.eqb key "length" then (Throws InvalidArrayLength, st2)
      else (Thenable p, set_cache st2 (<[key := SPromise p]> (_cache st2)))
  end.

(** The white space of [String.prototype.trim], each character by the
    bytes of its UTF-8 text: TAB, LF, VT, FF, CR, SP, U+00A0, U+1680,
    U+2000 to U+200A, U+2028, U+2029, U+202F, U+205F, U+3000, U+FEFF. *)
Definition white_space : list (list nat) :=
  [[9]; [10]; [11]; [12]; [13]; [32]; [194; 160]; [225; 154; 128];
   [226; 128; 128]; [226; 128; 129]; [226; 128; 130]; [226; 128; 131];
   [226; 128; 132]; [226; 128; 133]; [226; 128; 134]; [226; 128; 135];
   [226; 128; 136]; [226; 128; 137]; [226; 128; 138]; [226; 128; 168];
   [226; 128; 169]; [226; 128; 175]; [226; 129; 159]; [227; 128; 128];
   [239; 187; 191]]%nat.

(** The UTF-8 bytes of a code point below [2^16]. *)
Definition utf8 (cp : N) : list nat :=
  map N.to_nat
    (if (cp <? 128)%N then [cp]
     else if (cp <? 2048)%N then [192 + cp / 64; 128 + cp mod 64]%N
     else [224 + cp / 4096; 128 + (cp / 64) mod 64; 128 + cp mod 64]%N).

(** The code points of WhiteSpace and LineTerminator in ECMAScript. *)
Definition white_space_code_points : list N :=
  [9; 10; 11; 12; 13; 32; 160; 5760; 8192; 8193; 8194; 8195; 8196; 8197; 8198;
   8199; 8200; 8201; 8202; 8232; 8233; 8239; 8287; 12288; 65279]%N.

(** What is left of [s] after the bytes [pat] at its front. *)
Fixpoint strip (pat : list nat) (s : list ascii) : option (list ascii) :=
  match pat, s with
  | [], _ => Some s
  | b :: pat', c :: s' =>
      if Nat.eqb (nat_of_ascii c) b then strip pat' s' else None
  | _ :: _, [] => None
  end.

(** What is left of [s] after one character of [pats] at its front. *)
Fixpoint leading (pats : list (list nat)) (s : list ascii)
  : option (list ascii) :=
  match pats with
  | [] => None
  | pat :: rest =>
      match strip pat s with
      | Some s' => Some s'
      | None => leading rest s
      end
  end.

(** [s] without the characters of [pats] at its front; [fuel] bounds the
    number of characters dropped. *)
Fixpoint drop_leading (pats : list (list nat)) (fuel : nat) (s : list ascii)
  : list ascii :=
  match fuel with
  | O => s
  | S fuel' =>
      match leading pats s with
      | Some s' => drop_leading pats fuel' s'
      | None => s
      end
  end.

(** [String.prototype.trim]. *)
Definition trim (s : string) : string :=
  let bytes := list_ascii_of_string s in
  let front := drop_leading white_space (List.length bytes) bytes in
  let back :=
    drop_leading (map (@rev nat) white_space) (List.length front) (rev front) in
  string_of_list_ascii (rev back).

(** One round of the [reduce] over [organization], [ship], [secret]: the
    value stored in [cfg[k]] for the query value [val] ([undefined] when
    nothing is stored). *)
Definition config_value (val : value) : value :=
  let picked :=
    match val with
    | VStr _ => val
    | _ => if truthy val && truthy (field val "length") then field val "0"
           else VUndefined
    end in
  match picked with
  | VStr s => VStr (trim s)
  | _ => picked
  end.

(** How a promise returned by [client.get] ends. *)
Inductive fate : Type :=
| Resolves (s : value)
| Rejects (e : error)
| Pending.

Definition forceShipUpdate (req : request) : bool :=
  truthy (message (hull req))
  && is_string (field (message (hull req)) "Subject") "ship:update".

Definition escaped (f : fault) : result :=
  {| effects := []; outcome_of := Escaped f |}.

Definition enrichWithHullClient (E : engine)
    (handleError : string -> value -> result) (fate_of : nat -> fate)
    (req : request) (st : tenant_state) : result * tenant_state :=
  let config_organization := config_value (lookup_prop "organization" (query req)) in
  let config_ship := config_value (lookup_prop "ship" (query req)) in
  let config_secret := config_value (lookup_prop "secret" (query req)) in
  if truthy config_organization && truthy config_ship && truthy config_secret then
    let c := {| organization := config_organization; id := config_ship;
                secret := config_secret |} in
    let req1 := with_client req c in
    let (got, st') := getCurrentShip E config_ship c (forceShipUpdate req) st in
    (match got with
     | Thenable p =>
         match fate_of p with
         | Resolves s => continue (with_ship req1 s)
         | Rejects err => handleError (toString err) (VNum 400)
         | Pending => {| effects := []; outcome_of := Stalled |}
         end
     | NotThenable => escaped (NotAFunction "getCurrentShip(...).then")
     | Throws f => escaped f
     end, st')
  else (continue req, st).

(** ** [processHandlers] *)

(** The exception the engine raises for a fault, as the [catch] of the
    stage sees it. *)
Definition raised (E : engine) (f : fault) : error :=
  {| toString := fault_text E f; status := VUndefined |}.

(** What [handlers[k]] reads from the object literal [_handlers]: a list
    the registry owns, or what [Object.prototype] answers. *)
Inductive stored : Type :=
| Listed (fns : list handler)
| Builtin (n : native).

Definition registry_get (handlers : gmap string (list handler)) (k : string)
  : option stored :=
  match handlers !! k with
  | Some fns => Some (Listed fns)
  | None => option_map Builtin (Object_prototype k)
  end.

(** [fns.map(fn => processing.push(fn(payload, context)))]: the calls are
    made in order and a call that throws ends the loop.  The result is the
    calls made and the exception, if any. *)
Fixpoint invoke (fns : list handler) (payload : value) (ctx : context)
  : list effect * option error :=
  match fns with
  | [] => ([], None)
  | fn :: rest =>
      match fn payload ctx with
      | Threw e => ([Invoked fn payload ctx], Some e)
      | Returned =>
          let (es, thrown) := invoke rest payload ctx in
          (Invoked fn payload ctx :: es, thrown)
      end
  end.

(** The notification synthesized for one entry of [events]. *)
Definition event_payload (m user segments event : value) : value :=
  VObj [("message", VObj [("user", user); ("segments", segments); ("event", event)]);
        ("subject", VStr "event");
        ("timestamp", field m "Timestamp")].

(** [events.map(event => eventHandlers.map(fn => ...))]. *)
Fixpoint fan_out (eventHandlers : list handler) (m user segments : value)
    (events : list value) (ctx : context) : list effect * option error :=
  match events with
  | [] => ([], None)
  | event :: rest =>
      match invoke eventHandlers (event_payload m user segments event) ctx with
      | (es, Some e) => (es, Some e)
      | (es, None) =>
          let (es', thrown) := fan_out eventHandlers m user segments rest ctx in
          (es ++ es', thrown)
      end
  end.

(** [x > 0]. *)
Definition js_gt0 (E : engine) (x : value) : bool :=
  match x with
  | VNum n => (0 <? n)%Z
  | VBool b => b
  | VUndefined | VNull => false
  | _ => coerced_gt0 E x
  end.

(** A destructuring default: [x = []] replaces [undefined] only. *)
Definition or_empty_list (x : value) : value :=
  match x with
  | VUndefined => VArr []
  | _ => x
  end.

(** The calls of the sub-event rule, lines 93 to 109, for the event
    handlers [eventHandlers] and the canonical name [eventName]. *)
Definition sub_events (E : engine) (eventHandlers : list handler)
    (eventName : string) (req : request) (ctx : context)
  : list effect * option error :=
  if (0 <? List.length eventHandlers)%nat && String.eqb eventName "user:update" then
    match prop (notification (hull req)) "message" with
    | None => ([], Some (raised E (ReadOf (notification (hull req)) "message")))
    | Some payload =>
        if truthy payload then
          let user := field payload "user" in
          let events := or_empty_list (field payload "events") in
          let segments := or_empty_list (field payload "segments") in
          match prop events "length" with
          | None => ([], Some (raised E (ReadOf events "length")))
          | Some len =>
              if js_gt0 E len then
                match events with
                | VArr items =>
                    fan_out eventHandlers (message (hull req)) user segments items ctx
                | _ => ([], Some (raised E (NotAFunction "events.map")))
                end
              else ([], None)
          end
        else ([], None)
    end
  else ([], None).

(** The calls made for [handlers[eventName]], lines 79 and 87 to 91.  A
    built-in function of one parameter or more passes the test of its
    [length] and has no [map]. *)
Definition direct_handlers (E : engine) (handlers : gmap string (list handler))
    (eventName : string) (n : value) (ctx : context)
  : list effect * option error :=
  match registry_get handlers eventName with
  | Some (Listed messageHandlers) =>
      if (0 <? List.length messageHandlers)%nat
      then invoke messageHandlers n ctx
      else ([], None)
  | Some (Builtin (NFunction _ arity)) =>
      if (0 <? arity)%nat
      then ([], Some (raised E (NotAFunction "messageHandlers.map")))
      else ([], None)
  | Some (Builtin NObjectPrototype) => ([], None)
  | None => ([], None)
  end.

(** The synchronous part of the stage, inside its [try]: the calls made,
    and either the exception that reached the [catch] or the length of
    [processing].  [event] is no property of [Object.prototype], so
    [handlers['event'] || []] is the list the registry owns, or none. *)
Definition dispatch (E : engine) (handlers : gmap string (list handler))
    (req : request) : list effect * (error + nat) :=
  match prop (message (hull req)) "Subject" with
  | Some (VStr subject) =>
      let eventName := getHandlerName E subject in
      let ctx := {| ctx_req := req; ctx_ship := ship (hull req);
                    ctx_hull := client (hull req) |} in
      match direct_handlers E handlers eventName (notification (hull req)) ctx with
      | (es, Some e) => (es, inl e)
      | (es, None) =>
          let eventHandlers := default [] (handlers !! "event") in
          match sub_events E eventHandlers eventName req ctx with
          | (es', Some e) => (es ++ es', inl e)
          | (es', None) => (es ++ es', inr (List.length (es ++ es')))
          end
      end
  | Some (VUndefined as subject) | Some (VNull as subject) =>
      ([], inl (raised E (ReadOf subject "split")))
  | Some _ => ([], inl (raised E (NotAFunction "eventName.split")))
  | None => ([], inl (raised E (ReadOf (message (hull req)) "Subject")))
  end.

(** How a promise of [processing] settles. *)
Inductive settlement : Type :=
| Fulfilled
| Rejected (e : error).

Inductive all_result : Type :=
| AllFulfilled
| AllRejected (e : error).

(** [Promise.all] over the promises [pending] (named by their index in
    [processing]), fed with the settlements in the order they happen.  It
    fulfils once nothing is pending and rejects at the first rejection of
    a pending promise.  The result comes with the number of settlements
    seen when it was reached; [None]: it never settles. *)
Fixpoint await_all (pending : list nat) (trace : list (nat * settlement))
    (seen : nat) : option (all_result * nat) :=
  match pending with
  | [] => Some (AllFulfilled, seen)
  | _ =>
      match trace with
      | [] => None
      | (i, s) :: rest =>
          if existsb (Nat.eqb i) pending then
            match s with
            | Rejected e => Some (AllRejected e, S seen)
            | Fulfilled =>
                await_all (List.filter (fun j => negb (Nat.eqb i j)) pending)
                          rest (S seen)
            end
          else await_all pending rest (S seen)
      end
  end.

Definition Promise_all (n : nat) (trace : list (nat * settlement))
  : option (all_result * nat) :=
  await_all (seq 0 n) trace 0.

(** [err.status || 400]. *)
Definition status_or_400 (err : error) : value :=
  if truthy (status err) then status err else VNum 400.

Definition processHandlers (E : engine) (handlers : gmap string (list handler))
    (handleError : string -> value -> result)
    (trace : list (nat * settlement)) (req : request) : result :=
  match dispatch E handlers req with
  | (es, inl err) => after es (handleError (toString err) (VNum 500))
  | (es, inr processing_length) =>
      if (0 <? processing_length)%nat then
        match Promise_all processing_length trace with
        | Some (AllFulfilled, _) => after es (continue req)
        | Some (AllRejected err, _) =>
            after es (handleError (toString err) (status_or_400 err))
        | None => {| effects := es; outcome_of := Stalled |}
        end
      else after es (continue req)
  end.

(** ** The registry and the pipeline built by [NotifHandler] *)

(** [None]: the call throws, [_handlers[eventName]] being a built-in
    value without [push]; the lists of the registry are then as before. *)
Definition addEventHandler (E : engine) (evt : string) (fn : handler)
    (_handlers : gmap string (list handler))
  : option (gmap string (list handler)) :=
  let eventName := getHandlerName E evt in
  match registry_get _handlers eventName with
  | Some (Builtin _) => None
  | Some (Listed fns) => Some (<[eventName := fns ++ [fn]]> _handlers)
  | None => Some (<[eventName := [] ++ [fn]]> _handlers)
  end.

(** [_.map(eventsHash, (fn, eventName) => addEventHandler(eventName, fn))],
    the hash given by its properties in order; an exception ends it. *)
Fixpoint addEventHandlers (E : engine) (eventsHash : list (string * handler))
    (_handlers : gmap string (list handler))
  : option (gmap string (list handler)) :=
  match eventsHash with
  | [] => Some _handlers
  | (eventName, fn) :: rest =>
      match addEventHandler E eventName fn _handlers with
      | Some _handlers' => addEventHandlers E rest _handlers'
      | None => None
      end
  end.

Module Options.
(** The argument of [NotifHandler]: [handlers] ([None] when absent),
    whether [onError] and [onSubscribe] are given, and [groupTraits]. *)
Record t : Type := {
  handlers : option (list (string * handler));
  onError : bool;
  onSubscribe : bool;
  groupTraits : value
}.
End Options.

(** The options [NotifHandler] passes to [verifySignature]. *)
Definition verify_options_of (options : Options.t) : verify_options :=
  {| onSubscribe := Options.onSubscribe options;
     enforceValidation := false;
     groupTraits :=
       match Options.groupTraits options with
       | VBool false => false
       | _ => true
       end |}.

(** One pipeline: its options, its registry and its tenant cache. *)
Record pipeline : Type := {
  options_of : Options.t;
  _handlers : gmap string (list handler);
  tenants : tenant_state
}.

(** [None]: the registration of [options.handlers] throws and no
    pipeline is returned. *)
Definition NotifHandler (E : engine) (options : Options.t) : option pipeline :=
  match
    match Options.handlers options with
    | Some eventsHash => addEventHandlers E eventsHash ∅
    | None => Some ∅
    end
  with
  | Some registry =>
      Some {| options_of := options;
              _handlers := registry;
              tenants := {| _cache := ∅; detached := false; fetches := [] |} |}
  | None => None
  end.


(** What the outside does during one request: the body read, the
    validator's verdict, the handshake, how the fetches end and in which
    order the handlers' promises settle. *)
Record world : Type := {
  read : read_result;
  validation : option error;
  handshake : bool;
  fate_of : nat -> fate;
  settlements : list (nat * settlement)
}.

(** [app.use] chaining: the next stage runs when the stage before it
    called [next()]. *)
Definition and_then (r : result) (stage : request -> result) : result :=
  match outcome_of r with
  | Next req => after (effects r) (stage req)
  | _ => r
  end.

(** [app.handle(req, res)]: the six stages in the order of [app.use]. *)
Definition handle (E : engine) (P : pipeline) (w : world) (req : request)
  : result * pipeline :=
  let handleError := errorHandler (Options.onError (options_of P)) in
  let verified :=
    and_then (parseRequest E handleError (read w) req)
      (verifySignature E (verify_options_of (options_of P)) handleError
                       (validation w) (handshake w)) in
  match outcome_of verified with
  | Next req2 =>
      let (enriched, tenants') :=
        enrichWithHullClient E handleError (fate_of w) req2 (tenants P) in
      (after (effects verified)
         (and_then
            (and_then enriched
               (processHandlers E (_handlers P) handleError (settlements w)))
            (fun _ => res_end "ok")),
       {| options_of := options_of P; _handlers := _handlers P;
          tenants := tenants' |})
  | _ => (verified, P)
  end.

(** ** The specification's reading of the event-name derivation *)

(** The rename table as the specification words it. *)
Definition spec_rename (modelName : string) : string :=
  if String.eqb modelName "user_report" then "user"
  else if String.eqb modelName "users_segment" then "segment"
  else modelName.

(** Model and action joined by a colon, a side that is absent or empty
    being left out. *)
Definition spec_canonical (model : string) (action : option string) : string :=
  match action with
  | None => model
  | Some a =>
      if String.eqb a "" then model
      else if String.eqb model "" then a
      else (model ++ ":" ++ a)%string
  end.

Fixpoint no_colon (s : string) : bool :=
  match s with
  | EmptyString => true
  | String c rest => negb (Ascii.eqb c ":") && no_colon rest
  end.

(** The warning [verifySignature] logs when the validator reports an
    error and enforcement is off. *)
Definition warning (validation : option error) (m : value) : list effect :=
  match validation with
  | Some _ => [Warned "Invalid signature error" m]
  | None => []
  end.

(** ** Invariants of the shared state and other predicates *)

(** Every promise the cache holds is that of a fetch that was issued, no
    property is left at [null], and a built-in value is held only under a
    key the array inherits. *)
Definition cache_ok (E : engine) (st : tenant_state) : Prop :=
  forall key sl, _cache st !! key = Some sl ->
    match sl with
    | SPromise p => (p < List.length (fetches st))%nat
    | SNative => array_inherits E key = true
    | SNull => False
    end.

(** A ship id the array treats as a plain key: not [length], and no name
    the array inherits. *)
Definition plain_key (E : engine) (key : string) : Prop :=
  key <> "length" /\ array_inherits E key = false.


(** [s] is made of white space only. *)
Fixpoint spaces_only (fuel : nat) (s : list ascii) : bool :=
  match s with
  | [] => true
  | _ =>
      match fuel with
      | O => false
      | S fuel' =>
          match leading white_space s with
          | Some s' => spaces_only fuel' s'
          | None => false
          end
      end
  end.

Definition all_space (s : string) : bool :=
  spaces_only (String.length s) (list_ascii_of_string s).

(** The bytes of a run of characters of [pats]. *)
Inductive runs (pats : list (list nat)) : list ascii -> Prop :=
| runs_nil : runs pats []
| runs_cons pat s :
    In pat pats -> runs pats s -> runs pats (map ascii_of_nat pat ++ s).

(** A run of white space. *)
Definition blank : list ascii -> Prop := runs white_space.

Definition leading_colon (s : string) : bool :=
  match s with
  | String c _ => Ascii.eqb c ":"
  | EmptyString => false
  end.

(** The first component of a subject. *)
Definition model_of (s : string) : string := hd "" (split ":" s).

(** The response is an error response that the observer saw last, with
    the text and the status that were sent. *)
Definition observed_last (r : result) : Prop :=
  match outcome_of r with
  | Responded code body => exists es, effects r = es ++ [Observed body code]
  | _ => False
  end.

(** The two acknowledgements of the pipeline. *)
Definition acknowledged (r : result) : Prop :=
  outcome_of r = Responded (VNum 200) "ok"
  \/ outcome_of r = Responded (VNum 200) "subscribed".

Definition is_observation (e : effect) : bool :=
  match e with
  | Observed _ _ => true
  | _ => false
  end.

(** The observer was not called. *)
Definition quiet (es : list effect) : bool :=
  forallb (fun e => negb (is_observation e)) es.

(** A result that answers is an acknowledgement or an error response the
    observer saw; a result that does not answer has not called the
    observer. *)
Definition answers_reported (r : result) : Prop :=
  match outcome_of r with
  | Responded _ _ => acknowledged r \/ observed_last r
  | _ => quiet (effects r) = true
  end.

(** ** Sample inputs *)

Definition returning : handler := fun _ _ => Returned.

Definition boom : error := {| toString := "Error: boom"; status := VUndefined |}.

Definition throwing : handler := fun _ _ => Threw boom.

Definition confirmation_envelope : value :=
  VObj [("Type", VStr "SubscriptionConfirmation");
        ("SubscribeURL", VStr "https://sns.us-east-1.amazonaws.com/confirm")].

Definition sample_payload : value :=
  VObj [("user", VObj [("id", VStr "u1")]);
        ("events", VArr [VStr "e1"; VStr "e2"])].

Definition notification_envelope : value :=
  VObj [("Type", VStr "Notification");
        ("Subject", VStr "user_report:update");
        ("Message", VStr "payload");
        ("Timestamp", VStr "2016-07-01T10:00:00Z")].

Definition unknown_envelope : value :=
  VObj [("Type", VStr "UnsubscribeConfirmation")].

Definition broken_envelope : value :=
  VObj [("Type", VStr "Notification"); ("Subject", VStr "user_report:update");
        ("Message", VStr "{oops")].

Definition widget_envelope : value :=
  VObj [("Type", VStr "Notification"); ("Subject", VStr "widget:create");
        ("Message", VStr "payload");
        ("Timestamp", VStr "2016-07-01T10:00:00Z")].

(** The texts of V8, the engine of Node. *)
Definition v8_native_text (n : native) : string :=
  match n with
  | NFunction name _ => ("function " ++ name ++ "() { [native code] }")%string
  | NObjectPrototype => "[object Object]"
  end.

Definition v8_fault_text (f : fault) : string :=
  match f with
  | ReadOf VNull k =>
      ("TypeError: Cannot read properties of null (reading '" ++ k ++ "')")%string
  | ReadOf _ k =>
      ("TypeError: Cannot read properties of undefined (reading '" ++ k ++ "')")%string
  | NotAFunction callee => ("TypeError: " ++ callee ++ " is not a function")%string
  | InvalidArrayLength => "RangeError: Invalid array length"
  end.

Definition v8_array_methods : list string :=
  ["concat"; "constructor"; "copyWithin"; "entries"; "every"; "fill"; "filter";
   "find"; "findIndex"; "forEach"; "includes"; "indexOf"; "join"; "keys";
   "lastIndexOf"; "map"; "pop"; "push"; "reduce"; "reduceRight"; "reverse";
   "shift"; "slice"; "some"; "sort"; "splice"; "toLocaleString"; "toString";
   "unshift"; "values"].

(** An engine with the texts of V8 and a reader given by a table of
    texts; every other text is refused. *)
Definition engine_of (table : list (string * value)) (group : value -> value)
  : engine :=
  {| JSON_parse := fun v =>
       match v with
       | VStr s => assoc s table
       | _ => None
       end;
     group := group;
     coerced_gt0 := fun _ => false;
     coerced_key := fun _ => "[object Object]";
     native_text := v8_native_text;
     fault_text := v8_fault_text;
     array_method := fun k => existsb (String.eqb k) v8_array_methods |}.

Definition sample_engine : engine :=
  engine_of [("confirmation", confirmation_envelope);
             ("notification", notification_envelope);
             ("unknown", unknown_envelope);
             ("payload", sample_payload)]
            (fun user => user).

(** An engine that reads every body as [null]. *)
Definition null_engine : engine :=
  {| JSON_parse := fun _ => Some VNull; group := fun user => user;
     coerced_gt0 := fun _ => false; coerced_key := fun _ => "null";
     native_text := v8_native_text; fault_text := v8_fault_text;
     array_method := fun _ => false |}.

(** An engine whose [group] answers a fixed value. *)
Definition grouping_engine : engine :=
  engine_of [] (fun _ => VStr "grouped").

Definition broken_engine : engine :=
  engine_of [("broken", broken_envelope)] (fun user => user).

Definition widget_engine : engine :=
  engine_of [("widget", widget_envelope); ("payload", sample_payload)]
            (fun user => user).

Definition blank_request : request :=
  {| query := [];
     hull := {| message := VUndefined; notification := VUndefined;
                client := None; ship := VUndefined |} |}.

Definition tenant_query : list (string * value) :=
  [("organization", VStr "acme.hullapp.io");
   ("ship", VArr [VStr " ship1 "; VStr "ship2"]);
   ("secret", VStr "s3cret")].

Definition sample_world : world :=
  {| read := ReadText "confirmation";
     validation := Some {| toString := "Error: bad signature"; status := VUndefined |};
     handshake := true;
     fate_of := fun _ => Resolves (VObj [("id", VStr "ship1")]);
     settlements := [] |}.

Definition broken_world : world :=
  {| read := ReadText "broken"; validation := None; handshake := true;
     fate_of := fun _ => Pending; settlements := [] |}.

Definition sample_options : Options.t :=
  {| Options.handlers := None; Options.onError := true;
     Options.onSubscribe := true; Options.groupTraits := VUndefined |}.

Definition empty_tenants : tenant_state :=
  {| _cache := ∅; detached := false; fetches := [] |}.

(** The pipeline [NotifHandler] returns for [sample_options]. *)
Definition sample_pipeline : pipeline :=
  {| options_of := sample_options; _handlers := ∅; tenants := empty_tenants |}.

(** A request as [verifySignature] hands it on for [notification_envelope]. *)
Definition user_update_request : request :=
  {| query := [];
     hull := {| message := notification_envelope;
                notification :=
                  VObj [("subject", VStr "user_report:update");
                        ("message", sample_payload);
                        ("timestamp", VDate (VStr "2016-07-01T10:00:00Z"))];
                client := None; ship := VUndefined |} |}.

Definition user_update_context : context :=
  {| ctx_req := user_update_request; ctx_ship := VUndefined; ctx_hull := None |}.

(** Registries: two handlers of [user:update]; one handler of [event] that
    returns, one that throws; a throwing handler between two others. *)
Definition two_handlers : gmap string (list handler) :=
  <["user:update" := [returning; returning]]> ∅.

Definition event_listener : gmap string (list handler) :=
  <["event" := [returning]]> ∅.

Definition event_thrower : gmap string (list handler) :=
  <["event" := [throwing]]> ∅.

Definition mixed_handlers : gmap string (list handler) :=
  <["user:update" := [returning; throwing; returning]]> ∅.


Definition bulk_registered : gmap string (list handler) :=
  <["event" := [throwing]]> (<["user:update" := [returning]]> ∅).

Definition widget_pipeline : pipeline :=
  {| options_of := sample_options;
     _handlers := <["widget:create" := [returning]]> ∅;
     tenants := empty_tenants |}.

Definition sample_event (event : value) : value :=
  VObj [("message", VObj [("user", VObj [("id", VStr "u1")]);
                          ("segments", VArr []);
                          ("event", event)]);
        ("subject", VStr "event");
        ("timestamp", VStr "2016-07-01T10:00:00Z")].

Definition sample_client : Client :=
  {| organization := VStr "acme.hullapp.io"; id := VStr "ship1";
     secret := VStr "s3cret" |}.

Definition sample_ship : value := VObj [("id", VStr "ship1")].

Definition tenant_request : request :=
  {| query := tenant_query; hull := hull blank_request |}.

Definition ship_update_request : request :=
  {| query := tenant_query;
     hull := hull (with_message blank_request
                     (VObj [("Type", VStr "Notification");
                            ("Subject", VStr "ship:update")])) |}.

(** The tenant state after one resolution of [ship1]. *)
Definition cached_state : tenant_state :=
  {| _cache := <["ship1" := SPromise 0]> ∅; detached := false;
     fetches := [(sample_client, VStr "ship1")] |}.

(** A request whose ship id is a key of the given name. *)
Definition request_for (shipId : string) : request :=
  {| query := [("organization", VStr "acme.hullapp.io");
               ("ship", VStr shipId);
               ("secret", VStr "s3cret")];
     hull := hull blank_request |}.

Definition client_for (shipId : string) : Client :=
  {| organization := VStr "acme.hullapp.io"; id := VStr shipId;
     secret := VStr "s3cret" |}.

Definition widget_world : world :=
  {| read := ReadText "widget"; validation := None; handshake := true;
     fate_of := fun _ => Resolves sample_ship;
     settlements := [(0%nat, Fulfilled)] |}.

Definition widget_notification : value :=
  VObj [("subject", VStr "widget:create");
        ("message", sample_payload);
        ("timestamp", VDate (VStr "2016-07-01T10:00:00Z"))].

Definition widget_context : context :=
  {| ctx_req :=
       with_ship
         (with_client
            (with_notification (with_message tenant_request widget_envelope)
                               widget_notification)
            sample_client)
         sample_ship;
     ctx_ship := sample_ship;
     ctx_hull := Some sample_client |}.

(** A world in which the body reads as [widget_envelope] and the fetch
    of the ship fails. *)
Definition failing_world : world :=
  {| read := ReadText "widget"; validation := None; handshake := true;
     fate_of := fun _ => Rejects boom; settlements := [] |}.

(** A request whose ship parameter is blank. *)
Definition blank_ship_request : request :=
  {| query := [("organization", VStr "acme.hullapp.io");
               ("ship", VArr [VStr "  "; VStr "ship2"]);
               ("secret", VStr "s3cret")];
     hull := hull blank_request |}.

(** The character U+00A0, by its UTF-8 bytes. *)
Definition nbsp : string :=
  String (ascii_of_nat 194) (String (ascii_of_nat 160) EmptyString).

(** A request whose secret is the single character U+00A0. *)
Definition nbsp_request : request :=
  {| query := [("organization", VStr "acme.hullapp.io");
               ("ship", VStr "ship1");
               ("secret", VStr nbsp)];
     hull := hull blank_request |}.

(** Every white-space character, one after the other. *)
Definition every_white_space : string :=
  string_of_list_ascii (map ascii_of_nat (List.concat white_space)).

(** A request whose secret is made of every white-space character. *)
Definition white_space_request : request :=
  {| query := [("organization", VStr "acme.hullapp.io");
               ("ship", VStr "ship1");
               ("secret", VStr every_white_space)];
     hull := hull blank_request |}.

(** * Properties *)

Section EventNames.

Variable E : engine.

Lemma split_no_colon s : no_colon s = true -> split ":" s = [s].
Proof.
  induction s as [|c s IH]; simpl; [done|].
  destruct (Ascii.eqb c ":"); simpl; [done|].
  intros H. by rewrite (IH H).
Qed.

Lemma split_at_colon m rest :
  no_colon m = true ->
  split ":" (m ++ ":" ++ rest) = m :: split ":" rest.
Proof.
  induction m as [|c m IH]; simpl; [done|].
  destruct (Ascii.eqb c ":"); simpl; [done|].
  intros H. by rewrite (IH H).
Qed.

Lemma assoc_None {A} k (l : list (string * A)) :
  assoc k l = None <-> ~ In k (map fst l).
Proof.
  induction l as [|[k' a] l IH]; simpl; [tauto|].
  destruct (String.eqb_spec k k') as [->|Hne].
  - split; [done|]. intros H. destruct H. by left.
  - rewrite IH. split.
    + intros H [Heq|Hin]; [congruence|done].
    + intros H Hin. apply H. by right.
Qed.

Lemma mapped_model_plain m :
  Object_prototype m = None -> mapped_model m = PStr (spec_rename m).
Proof.
  intros Hm. unfold mapped_model, ModelsMapping, spec_rename.
  destruct (String.eqb_spec m "user_report") as [->|Hu]; [done|].
  rewrite lookup_insert_ne; [|done].
  destruct (String.eqb_spec m "users_segment") as [->|Hs]; [done|].
  rewrite lookup_insert_ne; [|done].
  by rewrite lookup_empty, Hm.
Qed.

Lemma mapped_model_inherited m n :
  Object_prototype m = Some n -> mapped_model m = PNative n.
Proof.
  intros Hm. unfold mapped_model, ModelsMapping.
  destruct (String.eqb_spec m "user_report") as [->|Hu]; [done|].
  rewrite lookup_insert_ne; [|done].
  destruct (String.eqb_spec m "users_segment") as [->|Hs]; [done|].
  rewrite lookup_insert_ne; [|done].
  by rewrite lookup_empty, Hm.
Qed.

Lemma getHandlerName_parts modelName action rest :
  split ":" (modelName ++ rest) = modelName :: action ->
  getHandlerName E (modelName ++ rest)
  = join E ":" (compact [Some (mapped_model modelName);
                         option_map PStr (nth_error (modelName :: action) 1)]).
Proof. intros H. unfold getHandlerName. by rewrite H. Qed.

Lemma join_compact model a :
  join E ":" (compact [Some (PStr model); Some (PStr a)])
  = spec_canonical model (Some a).
Proof.
  unfold spec_canonical, compact.
  destruct (String.eqb_spec model "") as [->|], (String.eqb_spec a "") as [->|];
    reflexivity.
Qed.

Lemma getHandlerName_two modelName action :
  Object_prototype modelName = None ->
  no_colon modelName = true -> no_colon action = true ->
  getHandlerName E (modelName ++ ":" ++ action)
  = spec_canonical (spec_rename modelName) (Some action).
Proof.
  intros Hplain Hm Ha.
  rewrite (getHandlerName_parts modelName [action]).
  - rewrite mapped_model_plain by done. simpl nth_error. apply join_compact.
  - rewrite split_at_colon; [|done]. by rewrite split_no_colon.
Qed.

Lemma getHandlerName_more modelName action rest :
  Object_prototype modelName = None ->
  no_colon modelName = true -> no_colon action = true ->
  getHandlerName E (modelName ++ ":" ++ action ++ ":" ++ rest)
  = spec_canonical (spec_rename modelName) (Some action).
Proof.
  intros Hplain Hm Ha.
  rewrite (getHandlerName_parts modelName (action :: split ":" rest)).
  - rewrite mapped_model_plain by done. simpl nth_error. apply join_compact.
  - rewrite split_at_colon; [|done]. by rewrite split_at_colon.
Qed.

Lemma getHandlerName_one s :
  Object_prototype s = None ->
  no_colon s = true -> getHandlerName E s = spec_rename s.
Proof.
  intros Hplain Hs. unfold getHandlerName. rewrite split_no_colon; [|done].
  simpl hd. rewrite mapped_model_plain by done. simpl.
  unfold spec_rename.
  destruct (String.eqb_spec s "user_report") as [->|]; [done|].
  destruct (String.eqb_spec s "users_segment") as [->|]; [done|].
  destruct (String.eqb_spec s "") as [->|]; done.
Qed.

Lemma getHandlerName_native modelName action n :
  Object_prototype modelName = Some n ->
  no_colon modelName = true -> no_colon action = true -> action <> "" ->
  getHandlerName E (modelName ++ ":" ++ action)
  = (native_text E n ++ ":" ++ action)%string.
Proof.
  intros Hn Hm Ha Hne.
  rewrite (getHandlerName_parts modelName [action]).
  - rewrite (mapped_model_inherited _ n) by done. simpl.
    by destruct (String.eqb_spec action "").
  - rewrite split_at_colon; [|done]. by rewrite split_no_colon.
Qed.

End EventNames.

(** C4, as far as the code has it.  The subject is split on the colon
    into model name and action.  For a model name that is no property of
    [Object.prototype], the rename table sends [user_report] to [user] and
    [users_segment] to [segment] and leaves every other name as it is, and
    the canonical name is the renamed model and the action joined by a
    colon, a side that is absent or empty being left out, so that a
    subject without a colon gives the renamed model alone; what follows a
    second colon plays no part.  For a model name that [Object.prototype]
    holds ([constructor], [toString], ...) the table, an object literal,
    answers with a built-in value, and the derived name begins with the
    text of that value instead of the model name. *)
Theorem getHandlerName_canonical (E : engine) (modelName action rest : string) :
  no_colon modelName = true ->
  no_colon action = true ->
  (Object_prototype modelName = None ->
   getHandlerName E (modelName ++ ":" ++ action)
     = spec_canonical (spec_rename modelName) (Some action)
   /\ getHandlerName E modelName = spec_canonical (spec_rename modelName) None
   /\ getHandlerName E (modelName ++ ":" ++ action ++ ":" ++ rest)
      = getHandlerName E (modelName ++ ":" ++ action))
  /\ (forall n, Object_prototype modelName = Some n -> action <> "" ->
      getHandlerName E (modelName ++ ":" ++ action)
        = (native_text E n ++ ":" ++ action)%string
      /\ spec_canonical (spec_rename modelName) (Some action)
         = (modelName ++ ":" ++ action)%string)
  /\ (Object_prototype modelName = None
      <-> ~ In modelName (map fst Object_prototype_properties))
  /\ spec_rename "user_report" = "user"
  /\ spec_rename "users_segment" = "segment"
  /\ (modelName <> "user_report" -> modelName <> "users_segment" ->
      spec_rename modelName = modelName)
  /\ getHandlerName E "user_report:update" = "user:update"
  /\ getHandlerName E "users_segment:delete" = "segment:delete"
  /\ getHandlerName E "widget:create" = "widget:create".
Proof.
  intros Hm Ha.
  split.
  { intros Hplain.
    split; [by apply getHandlerName_two|].
    split; [by apply getHandlerName_one|].
    by rewrite getHandlerName_more, getHandlerName_two. }
  split.
  { intros n Hn Hne. split; [by apply getHandlerName_native|].
    unfold spec_canonical, spec_rename.
    destruct (String.eqb_spec action ""); [done|].
    destruct (String.eqb_spec modelName "user_report") as [->|]; [done|].
    destruct (String.eqb_spec modelName "users_segment") as [->|]; [done|].
    by destruct (String.eqb_spec modelName "") as [->|]. }
  split; [apply assoc_None|].
  split; [reflexivity|].
  split; [reflexivity|].
  split; [|repeat split; reflexivity].
  intros Hu Hs. unfold spec_rename.
  destruct (String.eqb_spec modelName "user_report"); [done|].
  by destruct (String.eqb_spec modelName "users_segment").
Qed.

Lemma getHandlerName_canonical_witness :
  (getHandlerName sample_engine ("users_segment" ++ ":" ++ "delete")
   = "segment:delete"
   /\ getHandlerName sample_engine "users_segment" = "segment")
  /\ getHandlerName sample_engine ("constructor" ++ ":" ++ "update")
     = ("function Object() { [native code] }" ++ ":" ++ "update")%string.
Proof.
  split.
  - destruct (proj1 (getHandlerName_canonical sample_engine "users_segment"
                       "delete" "now" eq_refl eq_refl) eq_refl) as (H1 & H2 & _).
    split; [exact H1 | exact H2].
  - refine (proj1 (proj1 (proj2 (getHandlerName_canonical sample_engine
              "constructor" "update" "" eq_refl eq_refl))
              (NFunction "Object" 1) eq_refl _)).
    discriminate.
Defined.

Section Registry.

Variable E : engine.

Implicit Types (hs : gmap string (list handler)) (f g : handler).

Lemma registry_get_plain hs k :
  Object_prototype k = None ->
  registry_get hs k = option_map Listed (hs !! k).
Proof. intros H. unfold registry_get. rewrite H. by destruct (hs !! k). Qed.

Lemma registry_get_own hs k fns :
  hs !! k = Some fns -> registry_get hs k = Some (Listed fns).
Proof. intros H. unfold registry_get. by rewrite H. Qed.

Lemma addEventHandler_plain evt f hs :
  Object_prototype (getHandlerName E evt) = None
  \/ is_Some (hs !! getHandlerName E evt) ->
  addEventHandler E evt f hs
  = Some (<[getHandlerName E evt := default [] (hs !! getHandlerName E evt) ++ [f]]> hs).
Proof.
  intros H. unfold addEventHandler, registry_get.
  destruct (hs !! getHandlerName E evt) as [fns|] eqn:Hk; [done|].
  destruct H as [->|[? [=]]]. done.
Qed.

Lemma addEventHandler_some evt f hs hs' :
  addEventHandler E evt f hs = Some hs' ->
  hs' = <[getHandlerName E evt := default [] (hs !! getHandlerName E evt) ++ [f]]> hs.
Proof.
  unfold addEventHandler, registry_get.
  destruct (hs !! getHandlerName E evt) as [fns|] eqn:Hk; [by intros [= <-]|].
  destruct (Object_prototype _); [done|]. by intros [= <-].
Qed.

Lemma invoke_returned fns payload ctx :
  Forall (fun fn => fn payload ctx = Returned) fns ->
  invoke fns payload ctx = (map (fun fn => Invoked fn payload ctx) fns, None).
Proof.
  induction 1 as [|fn fns Hfn _ IH]; simpl; [done|].
  by rewrite Hfn, IH.
Qed.

End Registry.

Section Verification.

Variable E : engine.
Variable handleError : string -> value -> result.

Lemma typed_is_truthy m t :
  is_string (field m "Type") t = true -> truthy m = true.
Proof. destruct m as [| | [] | n | s | | |]; try done; simpl. Qed.

Lemma verifySignature_valid opts handshake req :
  truthy (message (hull req)) = true ->
  verifySignature E opts handleError None handshake req
  = route E opts handleError handshake req.
Proof. intros H. unfold verifySignature. by rewrite H. Qed.

Lemma verifySignature_relaxed opts err handshake req :
  truthy (message (hull req)) = true ->
  enforceValidation opts = false ->
  verifySignature E opts handleError (Some err) handshake req
  = after [Warned "Invalid signature error" (message (hull req))]
          (route E opts handleError handshake req).
Proof. intros H Hr. unfold verifySignature. by rewrite H, Hr. Qed.

Lemma verifySignature_strict opts err handshake req :
  truthy (message (hull req)) = true ->
  enforceValidation opts = true ->
  verifySignature E opts handleError (Some err) handshake req
  = handleError (toString err) (VNum 400).
Proof. intros H Hs. unfold verifySignature. by rewrite H, Hs. Qed.

Lemma route_other opts handshake req :
  is_string (field (message (hull req)) "Type") "SubscriptionConfirmation" = false ->
  is_string (field (message (hull req)) "Type") "Notification" = false ->
  route E opts handleError handshake req
  = {| effects := []; outcome_of := Stalled |}.
Proof. intros H1 H2. unfold route. by rewrite H1, H2. Qed.

Lemma route_confirmation opts handshake req :
  is_string (field (message (hull req)) "Type") "SubscriptionConfirmation" = true ->
  route E opts handleError handshake req
  = after [HttpsGet (field (message (hull req)) "SubscribeURL")]
      (if handshake then
         after (if onSubscribe opts then [Subscribed req] else [])
               (res_end "subscribed")
       else {| effects := []; outcome_of := Stalled |}).
Proof. intros H. unfold route. by rewrite H. Qed.

(** The notification handed on for an envelope of [Type] [Notification]:
    its timestamp is the [Date] of the envelope's [Timestamp]. *)
Lemma route_notification opts handshake req payload :
  is_string (field (message (hull req)) "Type") "Notification" = true ->
  JSON_parse E (field (message (hull req)) "Message") = Some payload ->
  route E opts handleError handshake req
  = continue (with_notification req
      (VObj [("subject", field (message (hull req)) "Subject");
             ("message", grouped E opts payload);
             ("timestamp", VDate (field (message (hull req)) "Timestamp"))])).
Proof.
  intros Ht Hp. unfold route. rewrite Ht, Hp.
  destruct (field (message (hull req)) "Type") as [| | | |t| | |]; try done.
  simpl in *. apply String.eqb_eq in Ht as ->. reflexivity.
Qed.

End Verification.

Section Pipeline.

Variable E : engine.

Lemma after_nil r : after [] r = r.
Proof. by destruct r. Qed.

Lemma after_after es es' r : after es (after es' r) = after (es ++ es') r.
Proof. unfold after. simpl. by rewrite app_assoc. Qed.

Lemma is_string_false v s : v <> VStr s -> is_string v s = false.
Proof.
  intros H. destruct v; try done. simpl.
  destruct (String.eqb_spec s0 s) as [->|]; done.
Qed.

Lemma is_string_true v s : is_string v s = true <-> v = VStr s.
Proof.
  split; [|by intros ->; simpl; rewrite String.eqb_refl].
  destruct v; try done. simpl. by intros ->%String.eqb_eq.
Qed.

Lemma parseRequest_failure handleError read req :
  read = ReadFailed
  \/ (exists body, read = ReadText body /\ JSON_parse E (VStr body) = None) ->
  parseRequest E handleError read req = handleError "Invalid body" (VNum 400).
Proof.
  intros [->|(body & -> & Hp)]; unfold parseRequest; [done|]. by rewrite Hp.
Qed.

Lemma parseRequest_success handleError body m req :
  JSON_parse E (VStr body) = Some m ->
  parseRequest E handleError (ReadText body) req = continue (with_message req m).
Proof. intros Hp. unfold parseRequest. by rewrite Hp. Qed.

(** A request that does not get past [verifySignature] leaves the
    pipeline as it was. *)
Lemma handle_stops_early P w req r :
  and_then (parseRequest E (errorHandler (Options.onError (options_of P)))
              (read w) req)
    (verifySignature E (verify_options_of (options_of P))
       (errorHandler (Options.onError (options_of P)))
       (validation w) (handshake w)) = r ->
  (forall req', outcome_of r <> Next req') ->
  handle E P w req = (r, P).
Proof.
  intros Hr Hno. unfold handle. rewrite Hr.
  destruct (outcome_of r) eqn:Ho; try done. by destruct (Hno req0).
Qed.

Lemma handle_verified P w req body m :
  read w = ReadText body ->
  JSON_parse E (VStr body) = Some m ->
  and_then (parseRequest E (errorHandler (Options.onError (options_of P)))
              (read w) req)
    (verifySignature E (verify_options_of (options_of P))
       (errorHandler (Options.onError (options_of P)))
       (validation w) (handshake w))
  = verifySignature E (verify_options_of (options_of P))
       (errorHandler (Options.onError (options_of P)))
       (validation w) (handshake w) (with_message req m).
Proof.
  intros Hread Hp. rewrite Hread, (parseRequest_success _ _ m); [|done].
  unfold and_then. simpl. apply after_nil.
Qed.

Lemma verifySignature_pipeline options handleError validation handshake req :
  truthy (message (hull req)) = true ->
  verifySignature E (verify_options_of options) handleError validation
                  handshake req
  = after (warning validation (message (hull req)))
          (route E (verify_options_of options) handleError handshake req).
Proof.
  intros H. destruct validation as [err|]; simpl warning.
  - by apply verifySignature_relaxed.
  - rewrite after_nil. by apply verifySignature_valid.
Qed.

Lemma NotifHandler_sample : NotifHandler E sample_options = Some sample_pipeline.
Proof. reflexivity. Qed.

End Pipeline.

(** C9. A body that cannot be read, or that [JSON.parse] refuses, is
    answered with status 400 and the text [Invalid body], whatever the
    query parameters are; [parseRequest] does not call [next], so no later
    stage sees an envelope, no handler runs and the pipeline is left as it
    was. *)
Theorem parseRequest_invalid_body (E : engine) (P : pipeline) (w : world)
    (req : request) :
  read w = ReadFailed
  \/ (exists body, read w = ReadText body /\ JSON_parse E (VStr body) = None) ->
  let onError := Options.onError (options_of P) in
  parseRequest E (errorHandler onError) (read w) req
    = {| effects := if onError then [Observed "Invalid body" (VNum 400)] else [];
         outcome_of := Responded (VNum 400) "Invalid body" |}
  /\ handle E P w req
     = ({| effects := if onError then [Observed "Invalid body" (VNum 400)] else [];
           outcome_of := Responded (VNum 400) "Invalid body" |}, P).
Proof.
  intros Hbad onError.
  pose proof (parseRequest_failure E (errorHandler onError) (read w) req Hbad) as Hp.
  split; [exact Hp|].
  apply handle_stops_early; [|done].
  fold onError. rewrite Hp. reflexivity.
Qed.

Lemma parseRequest_invalid_body_witness :
  handle sample_engine sample_pipeline
    {| read := ReadText "{not json"; validation := None; handshake := true;
       fate_of := fun _ => Pending; settlements := [] |}
    {| query := tenant_query; hull := hull blank_request |}
  = ({| effects := [Observed "Invalid body" (VNum 400)];
        outcome_of := Responded (VNum 400) "Invalid body" |},
     sample_pipeline).
Proof.
  refine (proj2 (parseRequest_invalid_body sample_engine sample_pipeline _ _ _)).
  right. exists "{not json". split; reflexivity.
Defined.

(** C5. When the validator reports an error for the envelope: under
    strict enforcement the stage answers with the error's text and status
    400 and goes no further; under relaxed enforcement it logs a warning
    and then does exactly what it does for a valid signature.  The
    options [NotifHandler] builds are always relaxed. *)
Theorem verifySignature_invalid_signature (E : engine) (opts : verify_options)
    (options : Options.t) (onError handshake : bool) (err : error)
    (req : request) :
  truthy (message (hull req)) = true ->
  (enforceValidation opts = true ->
   verifySignature E opts (errorHandler onError) (Some err) handshake req
   = {| effects := if onError then [Observed (toString err) (VNum 400)] else [];
        outcome_of := Responded (VNum 400) (toString err) |})
  /\ (enforceValidation opts = false ->
      verifySignature E opts (errorHandler onError) (Some err) handshake req
      = after [Warned "Invalid signature error" (message (hull req))]
          (verifySignature E opts (errorHandler onError) None handshake req))
  /\ enforceValidation (verify_options_of options) = false
  /\ verifySignature E (verify_options_of options) (errorHandler onError)
       (Some err) handshake req
     = after [Warned "Invalid signature error" (message (hull req))]
         (verifySignature E (verify_options_of options) (errorHandler onError)
            None handshake req).
Proof.
  intros Hm. split; [|split; [|split]].
  - intros Hs. by rewrite verifySignature_strict.
  - intros Hr. by rewrite verifySignature_relaxed, verifySignature_valid.
  - reflexivity.
  - by rewrite verifySignature_relaxed, verifySignature_valid.
Qed.

Lemma verifySignature_invalid_signature_witness :
  verifySignature sample_engine (verify_options_of sample_options)
    (errorHandler true) (Some boom) true
    (with_message blank_request notification_envelope)
  = after [Warned "Invalid signature error" notification_envelope]
      (verifySignature sample_engine (verify_options_of sample_options)
         (errorHandler true) None true
         (with_message blank_request notification_envelope)).
Proof.
  refine (proj2 (proj2 (proj2 (verifySignature_invalid_signature sample_engine
            (verify_options_of sample_options) sample_options true true boom
            (with_message blank_request notification_envelope) _)))).
  reflexivity.
Defined.

(** C6. An envelope whose [Type] is neither [SubscriptionConfirmation]
    nor [Notification] stalls the signature stage of the pipeline: the
    stage neither calls [next] nor sends a response (it only logs the
    warning of a failed signature check), and so does the whole pipeline
    for a body that decodes to such an envelope. *)
Theorem verifySignature_unknown_type (E : engine) (P : pipeline) (w : world)
    (req : request) (body : string) (m : value) :
  truthy m = true ->
  field m "Type" <> VStr "SubscriptionConfirmation" ->
  field m "Type" <> VStr "Notification" ->
  let handleError := errorHandler (Options.onError (options_of P)) in
  verifySignature E (verify_options_of (options_of P)) handleError
    (validation w) (handshake w) (with_message req m)
  = {| effects := warning (validation w) m; outcome_of := Stalled |}
  /\ (read w = ReadText body -> JSON_parse E (VStr body) = Some m ->
      handle E P w req
      = ({| effects := warning (validation w) m; outcome_of := Stalled |}, P)).
Proof.
  intros Hm H1 H2 handleError.
  assert (Hstage :
    verifySignature E (verify_options_of (options_of P)) handleError
      (validation w) (handshake w) (with_message req m)
    = {| effects := warning (validation w) m; outcome_of := Stalled |}).
  { rewrite verifySignature_pipeline; [|done].
    rewrite route_other; simpl; try by apply is_string_false.
    unfold after. simpl. by rewrite app_nil_r. }
  split; [exact Hstage|].
  intros Hread Hp. apply handle_stops_early; [|done].
  rewrite (handle_verified E P w req body m); done.
Qed.

Lemma verifySignature_unknown_type_witness :
  handle sample_engine sample_pipeline
    {| read := ReadText "unknown"; validation := None; handshake := true;
       fate_of := fun _ => Pending; settlements := [] |}
    blank_request
  = ({| effects := []; outcome_of := Stalled |}, sample_pipeline).
Proof.
  refine (proj2 (verifySignature_unknown_type sample_engine sample_pipeline
            {| read := ReadText "unknown"; validation := None; handshake := true;
               fate_of := fun _ => Pending; settlements := [] |}
            blank_request "unknown" unknown_envelope _ _ _) _ _);
    first [reflexivity | discriminate].
Defined.

(** C8 holds on the code for a handshake that succeeds and fails on it
    for one that does not.  For a body that decodes to an envelope of
    [Type] [SubscriptionConfirmation], the pipeline issues the GET on
    [SubscribeURL]; when the GET succeeds it calls the subscription
    callback, if one was given, and ends the request with status 200 and
    the body [subscribed]; when the GET fails, the function that would
    answer 400 is never called and no response is sent.  Either way no
    later stage runs and the pipeline is left as it was. *)
Theorem handle_subscription_confirmation (E : engine) (P : pipeline)
    (w : world) (req : request) (body : string) (m : value) :
  read w = ReadText body ->
  JSON_parse E (VStr body) = Some m ->
  field m "Type" = VStr "SubscriptionConfirmation" ->
  let called :=
    if Options.onSubscribe (options_of P)
    then [Subscribed (with_message req m)] else [] in
  handle E P w req
  = (if handshake w then
       {| effects := warning (validation w) m
                     ++ [HttpsGet (field m "SubscribeURL")] ++ called;
          outcome_of := Responded (VNum 200) "subscribed" |}
     else
       {| effects := warning (validation w) m
                     ++ [HttpsGet (field m "SubscribeURL")];
          outcome_of := Stalled |},
     P).
Proof.
  intros Hread Hp Ht called.
  assert (Hs : is_string (field m "Type") "SubscriptionConfirmation" = true)
    by by apply is_string_true.
  apply handle_stops_early.
  - rewrite (handle_verified E P w req body m); [|done..].
    rewrite verifySignature_pipeline; [|by apply (typed_is_truthy _ _ Hs)].
    rewrite route_confirmation; [|done].
    rewrite after_after. simpl.
    destruct (handshake w); unfold after; simpl.
    + fold called. by rewrite app_nil_r, <- app_assoc.
    + by rewrite app_nil_r.
  - by destruct (handshake w).
Qed.

Lemma handle_subscription_confirmation_witness :
  handle sample_engine sample_pipeline
    {| read := ReadText "confirmation"; validation := None; handshake := false;
       fate_of := fun _ => Pending; settlements := [] |}
    blank_request
  = ({| effects := [] ++ [HttpsGet (VStr "https://sns.us-east-1.amazonaws.com/confirm")];
        outcome_of := Stalled |},
     sample_pipeline).
Proof.
  exact (handle_subscription_confirmation sample_engine sample_pipeline
           {| read := ReadText "confirmation"; validation := None;
              handshake := false; fate_of := fun _ => Pending;
              settlements := [] |}
           blank_request "confirmation" confirmation_envelope
           eq_refl eq_refl eq_refl).
Defined.

Section Tenants.

Variable E : engine.

Lemma config_value_string s : config_value (VStr s) = VStr (trim s).
Proof. reflexivity. Qed.

Lemma config_value_first s rest :
  config_value (VArr (VStr s :: rest)) = VStr (trim s).
Proof. reflexivity. Qed.

Lemma enrich_skips handleError fate_of req st :
  truthy (config_value (lookup_prop "organization" (query req)))
  && truthy (config_value (lookup_prop "ship" (query req)))
  && truthy (config_value (lookup_prop "secret" (query req))) = false ->
  enrichWithHullClient E handleError fate_of req st = (continue req, st).
Proof. intros H. unfold enrichWithHullClient. by rewrite H. Qed.

Lemma enrich_resolves handleError fate_of req st :
  let c := {| organization := config_value (lookup_prop "organization" (query req));
              id := config_value (lookup_prop "ship" (query req));
              secret := config_value (lookup_prop "secret" (query req)) |} in
  let fetched := getCurrentShip E (id c) c (forceShipUpdate req) st in
  truthy (organization c) && truthy (id c) && truthy (secret c) = true ->
  enrichWithHullClient E handleError fate_of req st
  = (match fetched.1 with
     | Thenable p =>
         match fate_of p with
         | Resolves s => continue (with_ship (with_client req c) s)
         | Rejects err => handleError (toString err) (VNum 400)
         | Pending => {| effects := []; outcome_of := Stalled |}
         end
     | NotThenable => escaped (NotAFunction "getCurrentShip(...).then")
     | Throws f => escaped f
     end, fetched.2).
Proof.
  intros c fetched H. unfold enrichWithHullClient. simpl in H. rewrite H.
  fold c. change (getCurrentShip E _ c (forceShipUpdate req) st) with fetched.
  by destruct fetched.
Qed.

Lemma cache_get_length st : cache_get E st "length" = CLength (has_index (_cache st)).
Proof. reflexivity. Qed.

Lemma getCurrentShip_length shipId c st :
  property_key E shipId = "length" ->
  has_index (_cache st) = false ->
  getCurrentShip E shipId c false st
  = (Throws InvalidArrayLength,
     {| _cache := _cache st; detached := detached st;
        fetches := fetches st ++ [(c, shipId)] |}).
Proof.
  intros Hk Hi. unfold getCurrentShip. rewrite Hk, cache_get_length, Hi.
  reflexivity.
Qed.

End Tenants.

Section Blanks.

Lemma length_list_ascii s : List.length (list_ascii_of_string s) = String.length s.
Proof. induction s as [|c s IH]; simpl; [done|]. by rewrite IH. Qed.

Lemma drop_spaces_only n : forall s,
  spaces_only n s = true -> drop_leading white_space n s = [].
Proof.
  induction n as [|n IH]; intros [|c s] H; try done.
  change (spaces_only (S n) (c :: s))
    with (match leading white_space (c :: s) with
          | Some s' => spaces_only n s'
          | None => false
          end) in H.
  change (drop_leading white_space (S n) (c :: s))
    with (match leading white_space (c :: s) with
          | Some s' => drop_leading white_space n s'
          | None => c :: s
          end).
  destruct (leading white_space (c :: s)) as [s'|]; [|done]. by apply IH.
Qed.

Lemma trim_all_space s : all_space s = true -> trim s = "".
Proof.
  unfold all_space, trim. intros H.
  rewrite length_list_ascii, (drop_spaces_only _ _ H). reflexivity.
Qed.

Lemma strip_app pat : forall s s',
  strip pat s = Some s' -> s = map ascii_of_nat pat ++ s'.
Proof.
  induction pat as [|b pat IH]; intros s s' H; simpl in *.
  - by injection H as <-.
  - destruct s as [|c s]; [done|].
    destruct (Nat.eqb_spec (nat_of_ascii c) b) as [<-|]; [|done].
    rewrite ascii_nat_embedding. f_equal. by apply IH.
Qed.

Lemma strip_more pat : forall s s' t,
  strip pat s = Some s' -> strip pat (s ++ t) = Some (s' ++ t).
Proof.
  induction pat as [|b pat IH]; intros s s' t H; simpl in *.
  - by injection H as <-.
  - destruct s as [|c s]; [done|]. simpl.
    destruct (Nat.eqb (nat_of_ascii c) b); [|done]. by apply IH.
Qed.

Lemma strip_shorter pat : forall s s',
  pat <> [] -> strip pat s = Some s' -> (List.length s' < List.length s)%nat.
Proof.
  intros s s' Hne ->%strip_app. rewrite length_app, length_map.
  destruct pat; [done|]. simpl. lia.
Qed.

Lemma leading_Some pats : forall s s',
  leading pats s = Some s' ->
  exists pat, In pat pats /\ strip pat s = Some s'.
Proof.
  induction pats as [|pat pats IH]; intros s s' H; simpl in *; [done|].
  destruct (strip pat s) as [s0|] eqn:Hs.
  - injection H as <-. exists pat. split; [by left|done].
  - destruct (IH _ _ H) as (p & Hin & Hp). exists p. split; [by right|done].
Qed.

Lemma leading_None pats s :
  leading pats s = None <-> forall pat, In pat pats -> strip pat s = None.
Proof.
  induction pats as [|pat pats IH]; simpl.
  - split; [by intros _ ? []|done].
  - destruct (strip pat s) as [s0|] eqn:Hs.
    + split; [done|]. intros H. specialize (H pat (or_introl eq_refl)). congruence.
    + rewrite IH. split.
      * intros H p [<-|Hin]; [done|by apply H].
      * intros H p Hin. apply H. by right.
Qed.

(** No character of [pats] at the front of [s] means none at the front
    of anything [s] begins. *)
Lemma leading_None_prefix pats s t :
  leading pats (s ++ t) = None -> leading pats s = None.
Proof.
  rewrite !leading_None. intros H pat Hin.
  destruct (strip pat s) as [s'|] eqn:Hs; [|done].
  specialize (H pat Hin). by rewrite (strip_more pat s s' t Hs) in H.
Qed.

Lemma drop_leading_runs pats n : forall s,
  exists front, s = front ++ drop_leading pats n s /\ runs pats front.
Proof.
  induction n as [|n IH]; intros s; simpl.
  - exists []. split; [done|constructor].
  - destruct (leading pats s) as [s'|] eqn:Hl.
    + destruct (leading_Some _ _ _ Hl) as (pat & Hin & Hs).
      destruct (IH s') as (front & Hfront & Hruns).
      exists (map ascii_of_nat pat ++ front). split.
      * rewrite <- app_assoc, <- Hfront. by apply strip_app.
      * by constructor.
    + exists []. split; [done|constructor].
Qed.

Lemma drop_leading_done pats n : forall s,
  Forall (fun pat => pat <> []) pats ->
  (List.length s <= n)%nat ->
  leading pats (drop_leading pats n s) = None.
Proof.
  induction n as [|n IH]; intros s Hpats Hn; simpl.
  - destruct s; [|simpl in Hn; lia]. apply leading_None. intros pat Hin.
    rewrite List.Forall_forall in Hpats. specialize (Hpats pat Hin).
    by destruct pat.
  - destruct (leading pats s) as [s'|] eqn:Hl; [|done].
    apply IH; [done|].
    destruct (leading_Some _ _ _ Hl) as (pat & Hin & Hs).
    rewrite List.Forall_forall in Hpats.
    pose proof (strip_shorter pat s s' (Hpats pat Hin) Hs). lia.
Qed.

Lemma runs_app pats a b : runs pats a -> runs pats b -> runs pats (a ++ b).
Proof.
  induction 1 as [|pat s Hin _ IH]; intros Hb; [done|].
  rewrite <- app_assoc. constructor; [done|by apply IH].
Qed.

Lemma runs_rev pats s : runs (map (@rev nat) pats) s -> runs pats (rev s).
Proof.
  induction 1 as [|rp s Hin _ IH]; [constructor|].
  apply in_map_iff in Hin as (pat & <- & Hin).
  rewrite rev_app_distr, <- map_rev, rev_involutive.
  apply runs_app; [done|].
  rewrite <- (app_nil_r (map ascii_of_nat pat)). constructor; [done|constructor].
Qed.

Lemma white_space_nonempty : Forall (fun pat : list nat => pat <> []) white_space.
Proof. unfold white_space. repeat constructor; discriminate. Qed.

(** What [trim] leaves: the text without a run of white space at its
    front and one at its end, beginning and ending with no white-space
    character. *)
Lemma trim_spec s :
  let mid := list_ascii_of_string (trim s) in
  exists front back,
    list_ascii_of_string s = front ++ mid ++ back
    /\ blank front /\ blank back
    /\ leading white_space mid = None
    /\ leading (map (@rev nat) white_space) (rev mid) = None.
Proof.
  unfold trim, blank.
  set (bytes := list_ascii_of_string s).
  set (mid1 := drop_leading white_space (List.length bytes) bytes).
  set (mid2 := drop_leading (map (@rev nat) white_space) (List.length mid1)
                 (rev mid1)).
  rewrite list_ascii_of_string_of_list_ascii.
  destruct (drop_leading_runs white_space (List.length bytes) bytes)
    as (front & Hfront & Hf).
  destruct (drop_leading_runs (map (@rev nat) white_space) (List.length mid1)
              (rev mid1)) as (back & Hback & Hb).
  fold mid1 in Hfront. fold mid2 in Hback.
  assert (Hmid1 : mid1 = rev mid2 ++ rev back).
  { rewrite <- rev_app_distr, <- Hback. by rewrite rev_involutive. }
  exists front, (rev back). split; [by rewrite <- Hmid1|].
  split; [done|]. split; [by apply runs_rev|]. split.
  - apply (leading_None_prefix _ _ (rev back)). rewrite <- Hmid1.
    apply drop_leading_done; [apply white_space_nonempty|done].
  - rewrite rev_involutive. apply drop_leading_done.
    + apply Forall_map. eapply Forall_impl; [apply white_space_nonempty|].
      intros pat Hne. simpl. by destruct pat using rev_ind;
        [|rewrite rev_app_distr].
    + by rewrite length_rev.
Qed.

End Blanks.

Section Settling.

Implicit Types (pending : list nat) (trace : list (nat * settlement)).

Lemma existsb_eqb i pending : existsb (Nat.eqb i) pending = true <-> In i pending.
Proof.
  rewrite existsb_exists. split.
  - by intros (j & Hj & ->%Nat.eqb_eq).
  - intros H. exists i. by rewrite Nat.eqb_refl.
Qed.

Lemma in_filter_other i j pending :
  In i pending -> i <> j ->
  In i (List.filter (fun k => negb (Nat.eqb j k)) pending).
Proof.
  intros Hin Hne. apply filter_In. split; [done|].
  apply negb_true_iff, Nat.eqb_neq. congruence.
Qed.

Lemma await_all_step a pending j s trace seen :
  await_all (a :: pending) ((j, s) :: trace) seen
  = if existsb (Nat.eqb j) (a :: pending) then
      match s with
      | Rejected e => Some (AllRejected e, S seen)
      | Fulfilled =>
          await_all (List.filter (fun k => negb (Nat.eqb j k)) (a :: pending))
                    trace (S seen)
      end
    else await_all (a :: pending) trace (S seen).
Proof. reflexivity. Qed.

Lemma await_all_done trace seen :
  await_all [] trace seen = Some (AllFulfilled, seen).
Proof. by destruct trace. Qed.



End Settling.

Section Dispatching.

Variable E : engine.

Lemma fan_out_returned fns m user segments items ctx :
  Forall (fun event =>
            Forall (fun fn => fn (event_payload m user segments event) ctx = Returned)
                   fns) items ->
  fan_out fns m user segments items ctx
  = (flat_map (fun event =>
                 map (fun fn => Invoked fn (event_payload m user segments event) ctx)
                     fns) items, None).
Proof.
  induction 1 as [|event items Hev _ IH]; simpl; [done|].
  by rewrite (invoke_returned _ _ _ Hev), IH.
Qed.

Lemma invoke_throws pre : forall fn post payload ctx err,
  Forall (fun f => f payload ctx = Returned) pre ->
  fn payload ctx = Threw err ->
  invoke (pre ++ fn :: post) payload ctx
  = (map (fun f => Invoked f payload ctx) pre ++ [Invoked fn payload ctx], Some err).
Proof.
  induction pre as [|f pre IH]; intros fn post payload ctx err Hpre Hfn; simpl.
  - by rewrite Hfn.
  - apply Forall_cons_1 in Hpre as [Hf Hpre]. by rewrite Hf, (IH _ _ _ _ err).
Qed.

(** The fan-out ends at the first call that throws. *)
Lemma fan_out_throws fns m user segments before event later ctx es err :
  Forall (fun ev =>
            Forall (fun fn => fn (event_payload m user segments ev) ctx = Returned)
                   fns) before ->
  invoke fns (event_payload m user segments event) ctx = (es, Some err) ->
  fan_out fns m user segments (before ++ event :: later) ctx
  = (flat_map (fun ev =>
                 map (fun fn => Invoked fn (event_payload m user segments ev) ctx)
                     fns) before ++ es, Some err).
Proof.
  intros Hbefore Hev. induction Hbefore as [|ev before Hret _ IH]; simpl.
  - by rewrite Hev.
  - by rewrite (invoke_returned _ _ _ Hret), IH, app_assoc.
Qed.

Lemma length_fan_out {A B C} (f : A -> B -> C) (fns : list B) (items : list A) :
  List.length (flat_map (fun x => map (f x) fns) items)
  = (List.length items * List.length fns)%nat.
Proof.
  induction items as [|x items IH]; simpl; [done|].
  by rewrite length_app, length_map, IH.
Qed.

Lemma holds_events_is_truthy payload items :
  field payload "events" = VArr items -> truthy payload = true.
Proof. destruct payload as [| | [] | n | s | | |]; done. Qed.

(** The calls of the handlers a registry owns under a name, or of none
    when the name is unknown to the registry and to [Object.prototype]. *)
Lemma direct_calls (handlers : gmap string (list handler)) (eventName : string)
    n ctx :
  Object_prototype eventName = None \/ is_Some (handlers !! eventName) ->
  Forall (fun fn => fn n ctx = Returned) (default [] (handlers !! eventName)) ->
  direct_handlers E handlers eventName n ctx
  = (map (fun fn => Invoked fn n ctx) (default [] (handlers !! eventName)), None).
Proof.
  intros Hplain. unfold direct_handlers, registry_get.
  destruct (handlers !! eventName) as [[|fn fns]|]; simpl default; try done.
  - intros H. change (0 <? List.length (fn :: fns))%nat with true. cbv iota.
    by apply invoke_returned.
  - destruct Hplain as [->|[? [=]]]. done.
Qed.

Lemma direct_throws (handlers : gmap string (list handler)) (eventName : string)
    n ctx pre fn post err :
  handlers !! eventName = Some (pre ++ fn :: post) ->
  Forall (fun f => f n ctx = Returned) pre ->
  fn n ctx = Threw err ->
  direct_handlers E handlers eventName n ctx
  = (map (fun f => Invoked f n ctx) pre ++ [Invoked fn n ctx], Some err).
Proof.
  intros Hl Hpre Hfn. unfold direct_handlers, registry_get.
  unfold handler in *. rewrite Hl.
  assert (Hpos : (0 <? List.length (pre ++ fn :: post))%nat = true).
  { apply Nat.ltb_lt. rewrite length_app. simpl. lia. }
  rewrite Hpos. by apply invoke_throws.
Qed.

Lemma sub_events_items eventHandlers req ctx payload items fn fns :
  eventHandlers = fn :: fns ->
  prop (notification (hull req)) "message" = Some payload ->
  field payload "events" = VArr items ->
  items <> [] ->
  sub_events E eventHandlers "user:update" req ctx
  = fan_out eventHandlers (message (hull req)) (field payload "user")
      (or_empty_list (field payload "segments")) items ctx.
Proof.
  intros -> Hn Hev Hne. unfold sub_events.
  change (0 <? List.length (fn :: fns))%nat with true.
  change (String.eqb "user:update" "user:update") with true.
  cbv iota. simpl andb. cbv iota.
  rewrite Hn, (holds_events_is_truthy _ _ Hev), Hev.
  simpl or_empty_list at 1. cbv iota.
  destruct items as [|event items]; [done|].
  change (prop (VArr (event :: items)) "length")
    with (Some (VNum (Z.of_nat (S (List.length items))))).
  cbv iota.
  change (js_gt0 E (VNum (Z.of_nat (S (List.length items))))) with true.
  reflexivity.
Qed.

Lemma sub_events_returned eventHandlers req ctx payload items :
  prop (notification (hull req)) "message" = Some payload ->
  field payload "events" = VArr items ->
  items <> [] ->
  Forall (fun event =>
            Forall (fun fn =>
                      fn (event_payload (message (hull req)) (field payload "user")
                            (or_empty_list (field payload "segments")) event) ctx
                      = Returned) eventHandlers) items ->
  sub_events E eventHandlers "user:update" req ctx
  = (flat_map (fun event =>
                 map (fun fn =>
                        Invoked fn
                          (event_payload (message (hull req)) (field payload "user")
                             (or_empty_list (field payload "segments")) event) ctx)
                     eventHandlers) items, None).
Proof.
  intros Hn Hev Hne Hret.
  destruct eventHandlers as [|fn fns].
  - unfold sub_events. simpl. f_equal. clear. induction items; simpl; done.
  - rewrite (sub_events_items (fn :: fns) req ctx payload items fn fns) by done.
    by apply fan_out_returned.
Qed.

(** An exception thrown by a handler reaches the [catch] of the stage:
    the calls made so far stay made and the answer is 500. *)
Lemma processHandlers_thrown handlers handleError trace req es err :
  dispatch E handlers req = (es, inl err) ->
  processHandlers E handlers handleError trace req
  = after es (handleError (toString err) (VNum 500)).
Proof. intros H. unfold processHandlers. by rewrite H. Qed.

End Dispatching.




(** C2, as the code has it.  For an envelope whose subject derives to
    [user:update] and a payload whose [events] is a non-empty list of
    length N, with M handlers under the key [event]: as long as no call
    throws, the stage makes, after the calls of the handlers of
    [user:update], exactly N times M further calls, one for each pair of
    an entry and a handler, entry by entry; each receives the notification
    the code synthesizes for the entry, whose message is
    [{user, segments, event}] ([segments] being the empty list when the
    payload has none) and whose subject is [event].  A call that throws
    ends the fan-out: the calls before it were made, no later one is, and
    the stage answers 500 with the text of the exception. *)
Theorem sub_event_fan_out (E : engine) (handlers : gmap string (list handler))
    (onError : bool) (trace : list (nat * settlement))
    (req : request) (subject : string) (payload : value) (items : list value)
    (before later : list value) (event : value) (pre post : list handler)
    (fn : handler) (err : error) :
  let ctx := {| ctx_req := req; ctx_ship := ship (hull req);
                ctx_hull := client (hull req) |} in
  let eventHandlers := default [] (handlers !! "event") in
  let direct := map (fun f => Invoked f (notification (hull req)) ctx)
                    (default [] (handlers !! "user:update")) in
  let synthesized (entry : value) : value :=
    event_payload (message (hull req)) (field payload "user")
      (or_empty_list (field payload "segments")) entry in
  let calls (entries : list value) :=
    flat_map (fun entry => map (fun f => Invoked f (synthesized entry) ctx)
                               eventHandlers) entries in
  prop (message (hull req)) "Subject" = Some (VStr subject) ->
  getHandlerName E subject = "user:update" ->
  prop (notification (hull req)) "message" = Some payload ->
  field payload "events" = VArr items ->
  items <> [] ->
  Forall (fun f => f (notification (hull req)) ctx = Returned)
         (default [] (handlers !! "user:update")) ->
  (Forall (fun entry =>
             Forall (fun f => f (synthesized entry) ctx = Returned) eventHandlers)
          items ->
   dispatch E handlers req
   = (direct ++ calls items,
      inr (List.length (default [] (handlers !! "user:update"))
           + List.length items * List.length eventHandlers)%nat)
   /\ List.length (calls items)
      = (List.length items * List.length eventHandlers)%nat)
  /\ (items = before ++ event :: later ->
      eventHandlers = pre ++ fn :: post ->
      Forall (fun entry =>
                Forall (fun f => f (synthesized entry) ctx = Returned) eventHandlers)
             before ->
      Forall (fun f => f (synthesized event) ctx = Returned) pre ->
      fn (synthesized event) ctx = Threw err ->
      processHandlers E handlers (errorHandler onError) trace req
      = {| effects :=
             (direct ++ calls before
              ++ map (fun f => Invoked f (synthesized event) ctx) pre
              ++ [Invoked fn (synthesized event) ctx])
             ++ (if onError then [Observed (toString err) (VNum 500)] else []);
           outcome_of := Responded (VNum 500) (toString err) |})
  /\ (forall entry,
        field (synthesized entry) "message"
        = VObj [("user", field payload "user");
                ("segments", or_empty_list (field payload "segments"));
                ("event", entry)]
        /\ field (synthesized entry) "subject" = VStr "event")
  /\ or_empty_list VUndefined = VArr [].
Proof.
  intros ctx eventHandlers direct synthesized calls Hsubj Hname Hn Hev Hne Hdirect.
  assert (Hcalls : direct_handlers E handlers "user:update"
                     (notification (hull req)) ctx = (direct, None)).
  { apply direct_calls; [by left|done]. }
  split; [|split; [|done]].
  - intros Hret.
    assert (Hlen : List.length (calls items)
                   = (List.length items * List.length eventHandlers)%nat)
      by apply length_fan_out.
    split; [|done].
    unfold dispatch. rewrite Hsubj, Hname. fold ctx. rewrite Hcalls.
    fold eventHandlers.
    rewrite (sub_events_returned E eventHandlers req ctx payload items Hn Hev Hne Hret).
    unfold direct. rewrite length_app, length_map, length_fan_out. reflexivity.
  - intros Hitems Hfns Hbefore Hpre Hfn.
    assert (Hhead : exists f fs, eventHandlers = f :: fs).
    { rewrite Hfns. destruct pre; simpl; eauto. }
    destruct Hhead as (f & fs & Hhead).
    unfold processHandlers, dispatch. rewrite Hsubj, Hname. fold ctx.
    rewrite Hcalls. fold eventHandlers.
    rewrite (sub_events_items E eventHandlers req ctx payload items f fs Hhead Hn Hev Hne).
    rewrite Hitems.
    rewrite (fan_out_throws eventHandlers _ _ _ before event later ctx
               (map (fun f => Invoked f (synthesized event) ctx) pre
                ++ [Invoked fn (synthesized event) ctx]) err Hbefore).
    + reflexivity.
    + rewrite Hfns. by apply invoke_throws.
Qed.

Lemma sub_event_fan_out_witness :
  dispatch sample_engine event_listener user_update_request
  = ([] ++ [Invoked returning (sample_event (VStr "e1")) user_update_context;
            Invoked returning (sample_event (VStr "e2")) user_update_context],
     inr 2%nat)
  /\ processHandlers sample_engine event_thrower (errorHandler false) []
       user_update_request
     = {| effects :=
            ([] ++ [] ++ []
             ++ [Invoked throwing (sample_event (VStr "e1")) user_update_context])
            ++ [];
          outcome_of := Responded (VNum 500) "Error: boom" |}.
Proof.
  split.
  - refine (proj1 (proj1 (sub_event_fan_out sample_engine event_listener false []
      user_update_request "user_report:update" sample_payload
      [VStr "e1"; VStr "e2"] [] [] VNull [] [] returning boom
      _ _ _ _ _ _) _)).
    + reflexivity.
    + reflexivity.
    + reflexivity.
    + reflexivity.
    + discriminate.
    + constructor.
    + repeat constructor.
  - refine (proj1 (proj2 (sub_event_fan_out sample_engine event_thrower false []
      user_update_request "user_report:update" sample_payload
      [VStr "e1"; VStr "e2"] [] [VStr "e2"] (VStr "e1") [] [] throwing boom
      _ _ _ _ _ _)) _ _ _ _ _).
    + reflexivity.
    + reflexivity.
    + reflexivity.
    + reflexivity.
    + discriminate.
    + constructor.
    + reflexivity.
    + reflexivity.
    + constructor.
    + constructor.
    + reflexivity.
Defined.

(** C2 as worded fails.  With N = 2 entries and M = 1 handler of [event]
    that throws, one call is made, not two, and the stage answers 500. *)
Lemma sub_event_fan_out_stops_at_throw :
  default [] (event_thrower !! "event") = [throwing]
  /\ field sample_payload "events" = VArr [VStr "e1"; VStr "e2"]
  /\ dispatch sample_engine event_thrower user_update_request
     = ([Invoked throwing (sample_event (VStr "e1")) user_update_context],
        inl boom)
  /\ processHandlers sample_engine event_thrower (errorHandler false) []
       user_update_request
     = {| effects :=
            [Invoked throwing (sample_event (VStr "e1")) user_update_context];
          outcome_of := Responded (VNum 500) "Error: boom" |}.
Proof. repeat split; reflexivity. Qed.

(** C10, as far as the code has it.  For an event name whose canonical
    name is no property of [Object.prototype], or under whose canonical
    name the registry holds a list, [addEventHandler(e, f)] appends [f] to
    the list stored under [getHandlerName(e)] and touches no other list.
    Registering [f] under [user_report:update] and [g] under [user:update]
    therefore fills one list, and a notification whose subject derives to
    [user:update] is dispatched to both.  For an event name whose
    canonical name [Object.prototype] holds (as [:constructor]), the
    registry, an object literal, answers with a built-in value, which is
    truthy and has no [push]: the call throws and the handler is stored
    nowhere. *)
Theorem addEventHandler_canonical (E : engine) (evt subject : string)
    (f g : handler) (hs : gmap string (list handler)) (req : request) :
  let ctx := {| ctx_req := req; ctx_ship := ship (hull req);
                ctx_hull := client (hull req) |} in
  let both := <["user:update" := default [] (hs !! "user:update") ++ [f; g]]> hs in
  (Object_prototype (getHandlerName E evt) = None
   \/ is_Some (hs !! getHandlerName E evt) ->
   exists hs',
     addEventHandler E evt f hs = Some hs'
     /\ hs' !! getHandlerName E evt
        = Some (default [] (hs !! getHandlerName E evt) ++ [f])
     /\ forall k, k <> getHandlerName E evt -> hs' !! k = hs !! k)
  /\ (forall n,
        Object_prototype (getHandlerName E evt) = Some n ->
        hs !! getHandlerName E evt = None ->
        addEventHandler E evt f hs = None
        /\ registry_get hs (getHandlerName E evt) = Some (Builtin n))
  /\ (addEventHandler E "user_report:update" f hs
      = Some (<["user:update" := default [] (hs !! "user:update") ++ [f]]> hs)
      /\ addEventHandler E "user:update" g
           (<["user:update" := default [] (hs !! "user:update") ++ [f]]> hs)
         = Some both)
  /\ (getHandlerName E subject = "user:update" ->
      both !! getHandlerName E subject
      = Some (default [] (hs !! "user:update") ++ [f; g]))
  /\ (getHandlerName E subject = "user:update" ->
      prop (message (hull req)) "Subject" = Some (VStr subject) ->
      hs = ∅ ->
      f (notification (hull req)) ctx = Returned ->
      g (notification (hull req)) ctx = Returned ->
      dispatch E both req
      = ([Invoked f (notification (hull req)) ctx;
          Invoked g (notification (hull req)) ctx], inr 2%nat)).
Proof.
  intros ctx both.
  assert (Hboth : both !! "user:update"
                  = Some (default [] (hs !! "user:update") ++ [f; g])).
  { unfold both. by rewrite lookup_insert_eq. }
  split.
  { intros Hplain. eexists. split; [by apply addEventHandler_plain|].
    split; [by rewrite lookup_insert_eq|].
    intros k Hk. by rewrite lookup_insert_ne. }
  split.
  { intros n Hn Hk. unfold addEventHandler, registry_get. unfold handler in *.
    by rewrite Hk, Hn. }
  split.
  { split.
    - rewrite addEventHandler_plain; [done|by left].
    - rewrite addEventHandler_plain; [|by left].
      change (getHandlerName E "user:update") with "user:update".
      rewrite lookup_insert_eq. simpl default.
      unfold both. by rewrite insert_insert_eq, <- app_assoc. }
  split; [by intros ->|].
  intros Hname Hsubj Hhs Hf Hg.
  unfold dispatch. rewrite Hsubj, Hname. fold ctx.
  assert (Hfg : both !! "user:update" = Some [f; g]).
  { rewrite Hboth, Hhs, lookup_empty. reflexivity. }
  rewrite (direct_calls E both "user:update" (notification (hull req)) ctx);
    unfold handler in *; rewrite ?Hfg; [|by left|simpl; by repeat constructor].
  assert (Hev : both !! "event" = None).
  { unfold both. rewrite lookup_insert_ne by done. by rewrite Hhs, lookup_empty. }
  rewrite Hev. reflexivity.
Qed.

Lemma addEventHandler_canonical_witness :
  dispatch sample_engine two_handlers user_update_request
  = ([Invoked returning (notification (hull user_update_request))
              user_update_context;
      Invoked returning (notification (hull user_update_request))
              user_update_context], inr 2%nat)
  /\ addEventHandler sample_engine ":constructor" returning ∅ = None.
Proof.
  split.
  - exact (proj2 (proj2 (proj2 (proj2 (addEventHandler_canonical sample_engine
      "user_report:update" "user_report:update" returning returning ∅
      user_update_request)))) eq_refl eq_refl eq_refl eq_refl eq_refl).
  - refine (proj1 (proj1 (proj2 (addEventHandler_canonical sample_engine
      ":constructor" "" returning returning ∅ user_update_request))
      (NFunction "Object" 1) eq_refl _)).
    apply lookup_empty.
Defined.

Section CacheInvariant.

Variable E : engine.

Lemma cache_ok_empty : cache_ok E empty_tenants.
Proof. intros key sl. simpl. by rewrite lookup_empty. Qed.

Lemma eqb_length_false key : key <> "length" -> String.eqb key "length" = false.
Proof. intros H. by destruct (String.eqb_spec key "length"). Qed.

Lemma cache_clear_fetches key st : fetches (cache_clear key st) = fetches st.
Proof.
  unfold cache_clear. destruct (String.eqb key "length"); [done|].
  by destruct (_ && _ && _).
Qed.

(** After [_cache[key] = null] a key other than [length] reads falsy. *)
Lemma cache_clear_get key st :
  key <> "length" ->
  cache_get E (cache_clear key st) key = CNull
  \/ cache_get E (cache_clear key st) key = CUndefined.
Proof.
  intros Hk. unfold cache_clear, cache_get. rewrite (eqb_length_false _ Hk).
  destruct (String.eqb key "__proto__" && negb (detached st)
            && bool_decide (_cache st !! key = None)) eqn:Hp.
  - apply andb_prop in Hp as [_ Hn%bool_decide_eq_true]. simpl.
    rewrite Hn. by right.
  - simpl. rewrite lookup_insert_eq. by left.
Qed.

Lemma cache_clear_other key st key' :
  key <> "length" -> key' <> key ->
  _cache (cache_clear key st) !! key' = _cache st !! key'.
Proof.
  intros Hk Hne. unfold cache_clear. rewrite (eqb_length_false _ Hk).
  destruct (_ && _ && _); [done|]. simpl. by rewrite lookup_insert_ne.
Qed.

(** A forced resolution for a key other than [length] issues a fetch and
    stores and returns its promise. *)
Lemma getCurrentShip_forced shipId c st :
  property_key E shipId <> "length" ->
  (getCurrentShip E shipId c true st).1 = Thenable (List.length (fetches st))
  /\ fetches (getCurrentShip E shipId c true st).2 = fetches st ++ [(c, shipId)]
  /\ _cache (getCurrentShip E shipId c true st).2 !! property_key E shipId
     = Some (SPromise (List.length (fetches st))).
Proof.
  intros Hk. unfold getCurrentShip.
  destruct (cache_clear_get (property_key E shipId) st Hk) as [-> | ->];
    rewrite (eqb_length_false _ Hk), cache_clear_fetches; simpl;
    by rewrite lookup_insert_eq.
Qed.

(** An unforced resolution that finds a promise returns it and changes
    nothing. *)
Lemma getCurrentShip_cached shipId c st p :
  property_key E shipId <> "length" ->
  _cache st !! property_key E shipId = Some (SPromise p) ->
  getCurrentShip E shipId c false st = (Thenable p, st).
Proof.
  intros Hk H. unfold getCurrentShip, cache_get.
  rewrite (eqb_length_false _ Hk), H. f_equal.
  destruct st as [cache d fs]. unfold set_cache. simpl in *. by rewrite insert_id.
Qed.

(** Whatever a resolution returns as a promise is what the cache holds
    for the key afterwards, and the key is not [length]. *)
Lemma getCurrentShip_stores shipId c force st p :
  (getCurrentShip E shipId c force st).1 = Thenable p ->
  property_key E shipId <> "length"
  /\ _cache (getCurrentShip E shipId c force st).2 !! property_key E shipId
     = Some (SPromise p).
Proof.
  unfold getCurrentShip.
  set (key := property_key E shipId).
  set (st1 := if force then cache_clear key st else st).
  unfold cache_get.
  destruct (String.eqb_spec key "length") as [Hl|Hl].
  - by destruct (has_index (_cache st1)).
  - destruct (_cache st1 !! key) as [[|q|]|] eqn:Hq; simpl.
    + intros [= <-]. split; [done|]. by rewrite lookup_insert_eq.
    + intros [= <-]. split; [done|]. by rewrite lookup_insert_eq.
    + done.
    + destruct (negb (detached st1) && array_inherits E key); simpl; [done|].
      intros [= <-]. split; [done|]. by rewrite lookup_insert_eq.
Qed.

Lemma getCurrentShip_log shipId c force st :
  fetches (getCurrentShip E shipId c force st).2 = fetches st
  \/ fetches (getCurrentShip E shipId c force st).2 = fetches st ++ [(c, shipId)].
Proof.
  unfold getCurrentShip.
  set (key := property_key E shipId).
  assert (Hf : fetches (if force then cache_clear key st else st) = fetches st).
  { destruct force; [apply cache_clear_fetches|done]. }
  destruct (cache_get E _ key) as [| |p| |[]]; simpl; rewrite ?Hf; auto.
  - destruct (String.eqb key "length"); simpl; rewrite ?Hf; auto.
  - destruct (String.eqb key "length"); simpl; rewrite ?Hf; auto.
  - unfold cache_keep_builtin. destruct (_ && _); simpl; rewrite ?Hf; auto.
  - destruct (String.eqb key "length"); simpl; rewrite ?Hf; auto.
Qed.

(** What the cache holds after a resolution, under a key other than the
    resolved one, it held before. *)
Lemma getCurrentShip_held shipId c force st key sl :
  key <> property_key E shipId ->
  _cache (getCurrentShip E shipId c force st).2 !! key = Some sl ->
  _cache st !! key = Some sl.
Proof.
  intros Hne. unfold getCurrentShip.
  set (k := property_key E shipId) in *.
  set (st1 := if force then cache_clear k st else st).
  assert (H1 : _cache st1 !! key = Some sl -> _cache st !! key = Some sl).
  { unfold st1. destruct force; [|done]. unfold cache_clear.
    destruct (String.eqb k "length").
    - simpl. by intros [? _]%map_lookup_filter_Some.
    - destruct (_ && _ && _); [done|]. simpl. by rewrite lookup_insert_ne. }
  destruct (cache_get E st1 k) as [| |p| |[]]; simpl; try done.
  - destruct (String.eqb k "length"); simpl; [done|]. by rewrite lookup_insert_ne.
  - destruct (String.eqb k "length"); simpl; [done|]. by rewrite lookup_insert_ne.
  - by rewrite lookup_insert_ne.
  - unfold cache_keep_builtin. destruct (_ && _); [done|]. simpl.
    by rewrite lookup_insert_ne.
  - destruct (String.eqb k "length"); simpl; [done|]. by rewrite lookup_insert_ne.
Qed.

Lemma getCurrentShip_grows shipId c force st :
  (List.length (fetches st)
   <= List.length (fetches (getCurrentShip E shipId c force st).2))%nat.
Proof.
  destruct (getCurrentShip_log shipId c force st) as [-> | ->]; [done|].
  rewrite length_app. lia.
Qed.

(** What the cache holds under the resolved key after the resolution: the
    promise of the fetch just issued, what it held before, or the built-in
    value the array inherits under that key. *)
Lemma getCurrentShip_slot shipId c force st sl :
  _cache (getCurrentShip E shipId c force st).2 !! property_key E shipId = Some sl ->
  sl = SPromise (List.length (fetches st))
  \/ _cache st !! property_key E shipId = Some sl
  \/ (sl = SNative /\ array_inherits E (property_key E shipId) = true).
Proof.
  unfold getCurrentShip.
  set (k := property_key E shipId) in *.
  set (st1 := if force then cache_clear k st else st).
  assert (Hf : fetches st1 = fetches st).
  { unfold st1. destruct force; [apply cache_clear_fetches|done]. }
  destruct (String.eqb_spec k "length") as [Hl|Hl].
  - (* under [length] the code stores nothing *)
    assert (H1 : _cache st1 !! k = Some sl -> _cache st !! k = Some sl).
    { unfold st1. destruct force; [|done]. unfold cache_clear.
      rewrite (proj2 (String.eqb_eq k "length") Hl). simpl.
      by intros [? _]%map_lookup_filter_Some. }
    unfold cache_get. rewrite (proj2 (String.eqb_eq k "length") Hl).
    destruct (has_index (_cache st1)); simpl; intros Hs; right; left; auto.
  - assert (H1 : forall s, s <> SNull ->
                 _cache st1 !! k = Some s -> _cache st !! k = Some s).
    { intros s Hs. unfold st1. destruct force; [|done]. unfold cache_clear.
      rewrite (eqb_length_false _ Hl).
      destruct (_ && _ && _); [done|]. simpl. rewrite lookup_insert_eq.
      congruence. }
    unfold cache_get. rewrite (eqb_length_false _ Hl).
    destruct (_cache st1 !! k) as [[|q|]|] eqn:Hq; simpl.
    + rewrite lookup_insert_eq, Hf. intros [= <-]. by left.
    + rewrite lookup_insert_eq. intros [= <-]. right; left. by apply H1.
    + unfold cache_keep_builtin. rewrite Hq.
      rewrite bool_decide_eq_false_2 by done. rewrite andb_false_r. simpl.
      rewrite lookup_insert_eq. intros [= <-]. right; left. by apply H1.
    + destruct (negb (detached st1) && array_inherits E k) eqn:Hin; simpl.
      * unfold cache_keep_builtin. rewrite Hq.
        rewrite bool_decide_eq_true_2 by done. rewrite andb_true_r.
        destruct (String.eqb k "__proto__"); simpl.
        -- by rewrite Hq.
        -- rewrite lookup_insert_eq. intros [= <-]. right; right.
           by apply andb_prop in Hin as [_ ?].
      * rewrite lookup_insert_eq, Hf. intros [= <-]. by left.
Qed.

(** A resolution stores the promise of a fetch only if it has issued that
    fetch. *)
Lemma getCurrentShip_issued shipId c force st :
  _cache (getCurrentShip E shipId c force st).2 !! property_key E shipId
    = Some (SPromise (List.length (fetches st))) ->
  _cache st !! property_key E shipId <> Some (SPromise (List.length (fetches st))) ->
  fetches (getCurrentShip E shipId c force st).2 = fetches st ++ [(c, shipId)].
Proof.
  unfold getCurrentShip.
  set (k := property_key E shipId) in *.
  set (st1 := if force then cache_clear k st else st).
  assert (Hf : fetches st1 = fetches st).
  { unfold st1. destruct force; [apply cache_clear_fetches|done]. }
  assert (H1 : forall s, s <> SNull ->
               _cache st1 !! k = Some s -> _cache st !! k = Some s).
  { intros s Hs. unfold st1. destruct force; [|done]. unfold cache_clear.
    destruct (String.eqb k "length").
    - simpl. by intros [? _]%map_lookup_filter_Some.
    - destruct (_ && _ && _); [done|]. simpl. rewrite lookup_insert_eq.
      congruence. }
  unfold cache_get.
  destruct (String.eqb k "length") eqn:Hl.
  - destruct (has_index (_cache st1)); simpl; rewrite ?Hf; [|done].
    intros Hs Hn. destruct Hn. by apply H1.
  - destruct (_cache st1 !! k) as [[|q|]|] eqn:Hq; simpl; rewrite ?Hf; try done.
    + rewrite lookup_insert_eq. intros [= ->] Hn. destruct Hn. by apply H1.
    + unfold cache_keep_builtin. rewrite Hq.
      rewrite bool_decide_eq_false_2 by done. rewrite andb_false_r. simpl.
      by rewrite lookup_insert_eq.
    + destruct (negb (detached st1) && array_inherits E k); simpl; rewrite ?Hf;
        [|done].
      unfold cache_keep_builtin. rewrite Hq.
      destruct (_ && _); simpl; [by rewrite Hq|]. by rewrite lookup_insert_eq.
Qed.

Lemma getCurrentShip_ok shipId c force st :
  cache_ok E st -> cache_ok E (getCurrentShip E shipId c force st).2.
Proof.
  intros Hok key sl Hlook.
  pose proof (getCurrentShip_log shipId c force st) as Hlog.
  destruct (decide (key = property_key E shipId)) as [->|Hne].
  - destruct (getCurrentShip_slot _ _ _ _ _ Hlook) as [->|[Hst|[-> Hin]]];
      [|specialize (Hok _ _ Hst); destruct sl; try done;
        pose proof (getCurrentShip_grows shipId c force st); lia|done].
    destruct (decide (_cache st !! property_key E shipId
                      = Some (SPromise (List.length (fetches st))))) as [Hst|Hst].
    + specialize (Hok _ _ Hst). simpl in Hok. lia.
    + rewrite (getCurrentShip_issued _ _ _ _ Hlook Hst), length_app. simpl. lia.
  - pose proof (getCurrentShip_grows shipId c force st) as Hgrow.
    apply getCurrentShip_held in Hlook; [|done].
    specialize (Hok _ _ Hlook). destruct sl; try done. lia.
Qed.

(** For a plain key a resolution always returns a promise. *)
Lemma getCurrentShip_plain shipId c force st :
  cache_ok E st ->
  plain_key E (property_key E shipId) ->
  exists p, (getCurrentShip E shipId c force st).1 = Thenable p.
Proof.
  intros Hok [Hl Hin]. destruct force.
  - eexists. apply (getCurrentShip_forced shipId c st Hl).
  - unfold getCurrentShip, cache_get. rewrite (eqb_length_false _ Hl).
    destruct (_cache st !! property_key E shipId) as [[|q|]|] eqn:Hq; simpl;
      eauto.
    + specialize (Hok _ _ Hq). simpl in Hok. congruence.
    + rewrite Hin, andb_false_r. simpl. eauto.
Qed.

Lemma enrich_state handleError fate_of req st :
  (enrichWithHullClient E handleError fate_of req st).2 = st
  \/ exists shipId c,
       (enrichWithHullClient E handleError fate_of req st).2
       = (getCurrentShip E shipId c (forceShipUpdate req) st).2.
Proof.
  unfold enrichWithHullClient.
  destruct (truthy _ && truthy _ && truthy _); [|by left].
  right.
  exists (config_value (lookup_prop "ship" (query req))),
         {| organization := config_value (lookup_prop "organization" (query req));
            id := config_value (lookup_prop "ship" (query req));
            secret := config_value (lookup_prop "secret" (query req)) |}.
  by destruct (getCurrentShip E _ _ (forceShipUpdate req) st).
Qed.

Lemma forceShipUpdate_off req :
  field (message (hull req)) "Subject" <> VStr "ship:update" ->
  forceShipUpdate req = false.
Proof.
  intros H. unfold forceShipUpdate. rewrite (is_string_false _ _ H).
  apply andb_false_r.
Qed.

Lemma has_index_filter (cache : gmap string slot) :
  has_index (filter (fun kv : string * slot => is_array_index kv.1 = false) cache)
  = false.
Proof.
  unfold has_index. apply not_true_is_false. intros H.
  apply existsb_exists in H as ([k sl] & Hin & Hidx).
  apply list_elem_of_In, elem_of_map_to_list in Hin.
  apply map_lookup_filter_Some in Hin as [_ Hk]. simpl in *. congruence.
Qed.

(** Under [length], an array without element makes every resolution
    issue its fetch and throw, forced or not; nothing is stored. *)
Lemma getCurrentShip_at_length shipId c force st :
  property_key E shipId = "length" ->
  has_index (_cache st) = false ->
  (getCurrentShip E shipId c force st).1 = Throws InvalidArrayLength
  /\ fetches (getCurrentShip E shipId c force st).2 = fetches st ++ [(c, shipId)]
  /\ has_index (_cache (getCurrentShip E shipId c force st).2) = false.
Proof.
  intros Hk Hi. unfold getCurrentShip. rewrite Hk.
  destruct force.
  - unfold cache_clear, cache_get. simpl. rewrite has_index_filter. simpl.
    split; [done|split; [done|apply has_index_filter]].
  - unfold cache_get. simpl. rewrite Hi. simpl. done.
Qed.

Lemma forceShipUpdate_on req :
  field (message (hull req)) "Subject" = VStr "ship:update" ->
  forceShipUpdate req = true.
Proof.
  intros H. unfold forceShipUpdate. rewrite (proj2 (is_string_true _ _) H).
  destruct (message (hull req)) as [| |b|n|s|items|props|d]; done.
Qed.

End CacheInvariant.

(** C7. Each of [organization], [ship] and [secret] is normalised by
    taking a string as it is, or the first element of a list, and trimming
    it, which removes the run of white space at its front and the one at
    its end, white space being the characters ECMAScript names WhiteSpace
    and LineTerminator; a parameter that is absent or an empty list gives
    nothing.  When
    one of the three normalised values is missing or empty the stage
    calls [next] with the request untouched, without error, client or
    fetch.  Only when all three are non-empty does the stage build a
    client, from these three values, and resolve the ship through the
    cache: a fetch is issued or a client attached only then, and for a
    ship id that is a plain key of the cache the resolution is the promise
    of an issued fetch. *)
Theorem enrichWithHullClient_needs_all_three (E : engine) (onError : bool)
    (fate_of : nat -> fate) (req : request) (st : tenant_state)
    (s : string) (rest : list value) :
  let c := {| organization := config_value (lookup_prop "organization" (query req));
              id := config_value (lookup_prop "ship" (query req));
              secret := config_value (lookup_prop "secret" (query req)) |} in
  let fetched := getCurrentShip E (id c) c (forceShipUpdate req) st in
  let enriched := enrichWithHullClient E (errorHandler onError) fate_of req st in
  (config_value (VStr s) = VStr (trim s)
   /\ config_value (VArr (VStr s :: rest)) = VStr (trim s)
   /\ config_value VUndefined = VUndefined
   /\ config_value (VArr []) = VUndefined
   /\ truthy (VStr (trim s)) = negb (String.eqb (trim s) ""))
  /\ white_space = map utf8 white_space_code_points
  /\ (exists front back,
        list_ascii_of_string s = front ++ list_ascii_of_string (trim s) ++ back
        /\ blank front /\ blank back
        /\ leading white_space (list_ascii_of_string (trim s)) = None
        /\ leading (map (@rev nat) white_space)
             (rev (list_ascii_of_string (trim s))) = None)
  /\ (truthy (organization c) = false \/ truthy (id c) = false
      \/ truthy (secret c) = false ->
      enriched = (continue req, st))
  /\ (truthy (organization c) = true -> truthy (id c) = true ->
      truthy (secret c) = true ->
      enriched
      = (match fetched.1 with
         | Thenable p =>
             match fate_of p with
             | Resolves sh => continue (with_ship (with_client req c) sh)
             | Rejects err => errorHandler onError (toString err) (VNum 400)
             | Pending => {| effects := []; outcome_of := Stalled |}
             end
         | NotThenable => escaped (NotAFunction "getCurrentShip(...).then")
         | Throws f => escaped f
         end, fetched.2))
  /\ (fetches enriched.2 <> fetches st
      \/ (exists req', outcome_of enriched.1 = Next req'
                       /\ client (hull req') <> client (hull req)) ->
      truthy (organization c) = true /\ truthy (id c) = true
      /\ truthy (secret c) = true)
  /\ (truthy (organization c) = true -> truthy (id c) = true ->
      truthy (secret c) = true ->
      cache_ok E st -> plain_key E (property_key E (id c)) ->
      exists p, fetched.1 = Thenable p
                /\ (p < List.length (fetches enriched.2))%nat
                /\ _cache enriched.2 !! property_key E (id c) = Some (SPromise p)).
Proof.
  intros c fetched enriched.
  assert (Hskip : truthy (organization c) = false \/ truthy (id c) = false
                  \/ truthy (secret c) = false ->
                  enriched = (continue req, st)).
  { intros H. apply enrich_skips. simpl in H.
    destruct H as [->|[->| ->]]; [done| |].
    + by rewrite andb_false_r.
    + by rewrite andb_false_r. }
  assert (Hrun : truthy (organization c) = true -> truthy (id c) = true ->
                 truthy (secret c) = true ->
                 enriched
                 = (match fetched.1 with
                    | Thenable p =>
                        match fate_of p with
                        | Resolves sh => continue (with_ship (with_client req c) sh)
                        | Rejects err => errorHandler onError (toString err) (VNum 400)
                        | Pending => {| effects := []; outcome_of := Stalled |}
                        end
                    | NotThenable => escaped (NotAFunction "getCurrentShip(...).then")
                    | Throws f => escaped f
                    end, fetched.2)).
  { intros Ho Hi Hs. apply enrich_resolves. simpl in *. by rewrite Ho, Hi, Hs. }
  split; [repeat split|]. split; [reflexivity|]. split; [apply trim_spec|].
  split; [exact Hskip|]. split; [exact Hrun|]. split.
  - intros Hdone.
    destruct (truthy (organization c)) eqn:Ho;
      [|rewrite Hskip in Hdone by auto; simpl in Hdone;
        destruct Hdone as [?|(req' & [= <-] & ?)]; done].
    destruct (truthy (id c)) eqn:Hi;
      [|rewrite Hskip in Hdone by auto; simpl in Hdone;
        destruct Hdone as [?|(req' & [= <-] & ?)]; done].
    destruct (truthy (secret c)) eqn:Hs;
      [|rewrite Hskip in Hdone by auto; simpl in Hdone;
        destruct Hdone as [?|(req' & [= <-] & ?)]; done].
    done.
  - intros Ho Hi Hs Hok Hplain.
    destruct (getCurrentShip_plain E (id c) c (forceShipUpdate req) st Hok Hplain)
      as [p Hp].
    exists p. split; [exact Hp|].
    rewrite (Hrun Ho Hi Hs). simpl.
    destruct (getCurrentShip_stores E (id c) c (forceShipUpdate req) st p Hp)
      as [_ Hst].
    split; [|exact Hst].
    apply (getCurrentShip_ok E (id c) c (forceShipUpdate req) st Hok _ _ Hst).
Qed.

Lemma enrichWithHullClient_needs_all_three_witness :
  enrichWithHullClient sample_engine (errorHandler true)
    (fun _ => Resolves sample_ship) tenant_request empty_tenants
  = (continue (with_ship (with_client tenant_request sample_client) sample_ship),
     cached_state).
Proof.
  refine (eq_trans
    (proj1 (proj2 (proj2 (proj2 (proj2 (enrichWithHullClient_needs_all_three
       sample_engine true (fun _ => Resolves sample_ship) tenant_request
       empty_tenants "a" [])))))
       eq_refl eq_refl eq_refl) _).
  reflexivity.
Defined.

(** C3, as far as the code has it.  A resolution that is not forced and
    finds a promise in the cache issues no fetch and reuses that promise;
    two resolutions in a row for a ship id that is a plain key of the
    cache issue one fetch at most and get the same promise; and a request
    whose envelope subject is [ship:update] drops what the cache holds for
    its ship id and issues a fresh fetch, whatever was cached.  For the
    ship id [length] the code coalesces nothing: the cache is an array,
    whose [length] is [0] as long as it has no element, so every
    resolution finds nothing, issues its fetch, and throws when it stores
    the promise under [length]. *)
Theorem getCurrentShip_coalesces (E : engine) (onError : bool)
    (fate_of : nat -> fate) (req req' : request) (st : tenant_state) (p : nat) :
  let c := {| organization := config_value (lookup_prop "organization" (query req));
              id := config_value (lookup_prop "ship" (query req));
              secret := config_value (lookup_prop "secret" (query req)) |} in
  let c' := {| organization := config_value (lookup_prop "organization" (query req'));
               id := config_value (lookup_prop "ship" (query req'));
               secret := config_value (lookup_prop "secret" (query req')) |} in
  let key := property_key E (id c) in
  let ends (q : nat) (r : request) (cl : Client) : result :=
    match fate_of q with
    | Resolves sh => continue (with_ship (with_client r cl) sh)
    | Rejects err => errorHandler onError (toString err) (VNum 400)
    | Pending => {| effects := []; outcome_of := Stalled |}
    end in
  let first := enrichWithHullClient E (errorHandler onError) fate_of req st in
  let second :=
    enrichWithHullClient E (errorHandler onError) fate_of req' first.2 in
  truthy (organization c) && truthy (id c) && truthy (secret c) = true ->
  truthy (organization c') && truthy (id c') && truthy (secret c') = true ->
  property_key E (id c') = key ->
  (key <> "length" ->
   _cache st !! key = Some (SPromise p) ->
   field (message (hull req)) "Subject" <> VStr "ship:update" ->
   first = (ends p req c, st))
  /\ (plain_key E key -> cache_ok E st ->
      field (message (hull req')) "Subject" <> VStr "ship:update" ->
      exists q,
        first.1 = ends q req c
        /\ second = (ends q req' c', first.2)
        /\ (fetches first.2 = fetches st
            \/ fetches first.2 = fetches st ++ [(c, id c)]))
  /\ (key <> "length" ->
      field (message (hull req)) "Subject" = VStr "ship:update" ->
      first.1 = ends (List.length (fetches st)) req c
      /\ fetches first.2 = fetches st ++ [(c, id c)]
      /\ _cache first.2 !! key = Some (SPromise (List.length (fetches st))))
  /\ (key = "length" -> has_index (_cache st) = false ->
      first.1 = escaped InvalidArrayLength
      /\ second.1 = escaped InvalidArrayLength
      /\ fetches second.2 = fetches st ++ [(c, id c); (c', id c')]).
Proof.
  intros c c' key ends first second Hc Hc' Hkey.
  pose proof (enrich_resolves E (errorHandler onError) fate_of req st Hc) as H1.
  fold c in H1. fold first in H1.
  pose proof (enrich_resolves E (errorHandler onError) fate_of req' first.2 Hc')
    as H2.
  fold c' in H2. fold second in H2.
  split; [|split; [|split]].
  - intros Hl Hp Hsubject. rewrite H1.
    rewrite (forceShipUpdate_off req Hsubject).
    by rewrite (getCurrentShip_cached E (id c) c st p Hl Hp).
  - intros Hplain Hok Hsubject.
    destruct (getCurrentShip_plain E (id c) c (forceShipUpdate req) st Hok Hplain)
      as [q Hq].
    destruct (getCurrentShip_stores E (id c) c (forceShipUpdate req) st q Hq)
      as [Hl Hst].
    exists q. rewrite H1, Hq. simpl. split; [done|]. split.
    + rewrite H2, H1. simpl.
      rewrite (forceShipUpdate_off req' Hsubject).
      rewrite (getCurrentShip_cached E (id c') c' _ q); [done| |].
      * by rewrite Hkey.
      * by rewrite Hkey.
    + apply getCurrentShip_log.
  - intros Hl Hsubject. rewrite H1.
    rewrite (forceShipUpdate_on req Hsubject).
    destruct (getCurrentShip_forced E (id c) c st Hl) as (Hr & Hf & Hs).
    rewrite Hr. simpl. done.
  - intros Hl Hi.
    destruct (getCurrentShip_at_length E (id c) c (forceShipUpdate req) st Hl Hi)
      as (Hr & Hf & Hi').
    assert (Hfirst : first.2 = (getCurrentShip E (id c) c (forceShipUpdate req) st).2)
      by by rewrite H1.
    rewrite <- Hfirst in Hi', Hf.
    assert (Hl' : property_key E (id c') = "length") by by rewrite Hkey.
    destruct (getCurrentShip_at_length E (id c') c' (forceShipUpdate req') first.2
                Hl' Hi') as (Hr' & Hf' & _).
    split; [rewrite H1; cbn [fst snd]; by rewrite Hr|].
    split; [rewrite H2; cbn [fst snd]; by rewrite Hr'|].
    rewrite H2. cbn [fst snd]. rewrite Hf', Hf. by rewrite <- app_assoc.
Qed.

Lemma getCurrentShip_coalesces_witness :
  enrichWithHullClient sample_engine (errorHandler false)
    (fun _ => Resolves sample_ship) tenant_request cached_state
  = (continue (with_ship (with_client tenant_request sample_client) sample_ship),
     cached_state)
  /\ fetches
       (enrichWithHullClient sample_engine (errorHandler false)
          (fun _ => Resolves sample_ship) (request_for "length")
          (enrichWithHullClient sample_engine (errorHandler false)
             (fun _ => Resolves sample_ship) (request_for "length")
             empty_tenants).2).2
     = fetches empty_tenants
       ++ [(client_for "length", VStr "length");
           (client_for "length", VStr "length")].
Proof.
  split.
  - refine (proj1 (getCurrentShip_coalesces sample_engine false
              (fun _ => Resolves sample_ship) tenant_request tenant_request
              cached_state 0 eq_refl eq_refl eq_refl) _ _ _).
    + discriminate.
    + reflexivity.
    + discriminate.
  - exact (proj2 (proj2 (proj2 (proj2 (proj2 (getCurrentShip_coalesces
             sample_engine false (fun _ => Resolves sample_ship)
             (request_for "length") (request_for "length") empty_tenants 0
             eq_refl eq_refl eq_refl))) eq_refl eq_refl))).
Defined.

(** * Further properties of the code *)

Section CanonicalNames.

Variable E : engine.

Lemma split_cases s :
  no_colon s = true
  \/ exists m rest, s = (m ++ ":" ++ rest)%string /\ no_colon m = true.
Proof.
  induction s as [|c s IH]; [by left|].
  simpl. destruct (Ascii.eqb_spec c ":") as [->|Hc].
  - right. by exists "", s.
  - destruct IH as [IH|(m & rest & -> & Hm)].
    + left. by rewrite IH.
    + right. exists (String c m), rest. split; [done|].
      simpl. destruct (Ascii.eqb_spec c ":"); done.
Qed.

Lemma model_of_whole s : no_colon s = true -> model_of s = s.
Proof. intros H. unfold model_of. by rewrite split_no_colon. Qed.

Lemma model_of_prefix m rest : no_colon m = true -> model_of (m ++ ":" ++ rest) = m.
Proof. intros H. unfold model_of. by rewrite split_at_colon. Qed.

Lemma spec_rename_no_colon m : no_colon m = true -> no_colon (spec_rename m) = true.
Proof.
  intros H. unfold spec_rename.
  destruct (String.eqb m "user_report"); [done|].
  by destruct (String.eqb m "users_segment").
Qed.

Lemma spec_rename_plain m :
  Object_prototype m = None -> Object_prototype (spec_rename m) = None.
Proof.
  intros H. unfold spec_rename.
  destruct (String.eqb m "user_report"); [done|].
  by destruct (String.eqb m "users_segment").
Qed.

Lemma spec_rename_again m : spec_rename (spec_rename m) = spec_rename m.
Proof.
  unfold spec_rename.
  destruct (String.eqb_spec m "user_report") as [->|Hu]; [done|].
  destruct (String.eqb_spec m "users_segment") as [->|Hs]; [done|].
  destruct (String.eqb_spec m "user_report"); [done|].
  by destruct (String.eqb_spec m "users_segment").
Qed.

Lemma spec_rename_nonempty m : m <> "" -> spec_rename m <> "".
Proof.
  intros H. unfold spec_rename.
  destruct (String.eqb m "user_report"); [done|].
  by destruct (String.eqb m "users_segment").
Qed.

(** A subject whose first component is no property of [Object.prototype]
    derives to the renamed first component joined with the second one;
    the first component is empty only for the empty subject and for a
    subject that begins with a colon. *)
Lemma getHandlerName_shape s :
  Object_prototype (model_of s) = None ->
  exists a, no_colon (model_of s) = true /\ no_colon a = true
    /\ (model_of s = "" -> a = "" \/ leading_colon s = true)
    /\ getHandlerName E s = spec_canonical (spec_rename (model_of s)) (Some a).
Proof.
  destruct (split_cases s) as [Hs|(m & rest & -> & Hm)].
  - rewrite model_of_whole by done. intros Hplain.
    exists "". repeat split; try done.
    + by left.
    + by rewrite getHandlerName_one.
  - rewrite model_of_prefix by done. intros Hplain.
    assert (Hlead : m = "" -> leading_colon (m ++ ":" ++ rest) = true)
      by by intros ->.
    destruct (split_cases rest) as [Hr|(a & rest' & -> & Ha)].
    + exists rest. repeat split; try done.
      * intros H. right. by apply Hlead.
      * by apply getHandlerName_two.
    + exists a. repeat split; try done.
      * intros H. right. by apply Hlead.
      * by apply getHandlerName_more.
Qed.

End CanonicalNames.

(** X1. Deriving the name of a derived name changes nothing, for every
    subject that does not begin with a colon and whose first component is
    no property of [Object.prototype]: such canonical names are fixed
    points, so a handler may be registered under the raw subject or under
    its canonical name alike. *)
Theorem getHandlerName_idempotent (E : engine) (s : string) :
  leading_colon s = false ->
  Object_prototype (model_of s) = None ->
  getHandlerName E (getHandlerName E s) = getHandlerName E s.
Proof.
  intros Hlead Hplain.
  destruct (getHandlerName_shape E s Hplain) as (a & Hm & Ha & Hl & ->).
  set (m := model_of s) in *.
  unfold spec_canonical.
  destruct (String.eqb_spec a "") as [->|Hane].
  - rewrite getHandlerName_one;
      [|by apply spec_rename_plain|by apply spec_rename_no_colon].
    apply spec_rename_again.
  - destruct (String.eqb_spec (spec_rename m) "") as [Hr|Hr].
    + destruct (String.eqb_spec m "") as [Hme|Hmne].
      * destruct (Hl Hme) as [->|Hc]; [done|congruence].
      * by destruct (spec_rename_nonempty m).
    + rewrite getHandlerName_two;
        [|by apply spec_rename_plain|by apply spec_rename_no_colon|done].
      rewrite spec_rename_again. unfold spec_canonical.
      destruct (String.eqb_spec a ""); [done|].
      by destruct (String.eqb_spec (spec_rename m) "").
Qed.

Lemma getHandlerName_idempotent_witness :
  getHandlerName sample_engine (getHandlerName sample_engine "users_segment:update:now")
  = getHandlerName sample_engine "users_segment:update:now".
Proof.
  exact (getHandlerName_idempotent sample_engine "users_segment:update:now"
           eq_refl eq_refl).
Defined.

Section RegistryGrowth.

Variable E : engine.

Implicit Types (hs : gmap string (list handler)) (fn : handler).

Lemma addEventHandler_keeps evt fn hs hs' key fns :
  addEventHandler E evt fn hs = Some hs' ->
  hs !! key = Some fns ->
  exists more, hs' !! key = Some (fns ++ more).
Proof.
  intros ->%addEventHandler_some H.
  destruct (decide (key = getHandlerName E evt)) as [->|Hne].
  - exists [fn]. rewrite lookup_insert_eq. by rewrite H.
  - exists []. rewrite lookup_insert_ne by done. by rewrite app_nil_r.
Qed.

Lemma addEventHandler_stores evt fn hs hs' :
  addEventHandler E evt fn hs = Some hs' ->
  hs' !! getHandlerName E evt
  = Some (default [] (hs !! getHandlerName E evt) ++ [fn]).
Proof. intros ->%addEventHandler_some. by rewrite lookup_insert_eq. Qed.

Lemma addEventHandlers_keeps eventsHash : forall hs hs' key fns,
  addEventHandlers E eventsHash hs = Some hs' ->
  hs !! key = Some fns ->
  exists more, hs' !! key = Some (fns ++ more).
Proof.
  induction eventsHash as [|[evt fn] eventsHash IH]; intros hs hs' key fns Hadd H.
  - injection Hadd as <-. exists []. by rewrite app_nil_r.
  - simpl in Hadd.
    destruct (addEventHandler E evt fn hs) as [hs1|] eqn:H1; [|done].
    destruct (addEventHandler_keeps evt fn hs hs1 key fns H1 H) as (more & Hm).
    destruct (IH _ _ _ _ Hadd Hm) as (more' & Hm').
    exists (more ++ more'). by rewrite app_assoc.
Qed.




Lemma addEventHandlers_returns eventsHash : forall hs,
  Forall (fun entry : string * handler =>
            Object_prototype (getHandlerName E entry.1) = None) eventsHash ->
  is_Some (addEventHandlers E eventsHash hs).
Proof.
  induction eventsHash as [|[evt fn] eventsHash IH]; intros hs Hall; [done|].
  apply Forall_cons_1 in Hall as [Hevt Hall]. simpl in *.
  rewrite addEventHandler_plain by by left. by apply IH.
Qed.

Lemma addEventHandlers_files eventsHash : forall hs hs' name fn,
  addEventHandlers E eventsHash hs = Some hs' ->
  In (name, fn) eventsHash ->
  exists fns, hs' !! getHandlerName E name = Some fns /\ In fn fns.
Proof.
  induction eventsHash as [|[evt g] eventsHash IH]; intros hs hs' name fn Hadd Hin.
  - destruct Hin.
  - simpl in Hadd.
    destruct (addEventHandler E evt g hs) as [hs1|] eqn:H1; [|done].
    destruct Hin as [[= -> ->]|Hin].
    + destruct (addEventHandlers_keeps eventsHash hs1 hs' (getHandlerName E name) _
                  Hadd (addEventHandler_stores name fn hs hs1 H1)) as (more & Hm).
      eexists. split; [exact Hm|]. apply in_or_app. left.
      apply in_or_app. right. by left.
    + by apply (IH hs1).
Qed.

End RegistryGrowth.



(** X3. A bulk registration returns when the canonical name of every
    key of the hash is no property of [Object.prototype]; and when it
    returns, every handler of the hash is filed under the canonical name
    of its key: the list under [getHandlerName name] contains [fn] for
    every entry [(name, fn)]. *)
Theorem addEventHandlers_registers_all (E : engine)
    (eventsHash : list (string * handler))
    (hs hs' : gmap string (list handler)) (name : string) (fn : handler) :
  (Forall (fun entry : string * handler =>
             Object_prototype (getHandlerName E entry.1) = None) eventsHash ->
   is_Some (addEventHandlers E eventsHash hs))
  /\ (addEventHandlers E eventsHash hs = Some hs' ->
      In (name, fn) eventsHash ->
      exists fns, hs' !! getHandlerName E name = Some fns /\ In fn fns).
Proof.
  split; [apply addEventHandlers_returns|apply addEventHandlers_files].
Qed.

Lemma addEventHandlers_registers_all_witness :
  exists fns,
    bulk_registered !! getHandlerName sample_engine "event" = Some fns
    /\ In throwing fns.
Proof.
  apply (proj2 (addEventHandlers_registers_all sample_engine
           [("user_report:update", returning); ("event", throwing)] ∅
           bulk_registered "event" throwing)).
  - reflexivity.
  - right. left. reflexivity.
Defined.



Section Builtins.

Variable E : engine.

(** A resolution that returns what is no promise has issued no fetch,
    and the array owns the built-in value afterwards. *)
Lemma getCurrentShip_builtin shipId c force st :
  (getCurrentShip E shipId c force st).1 = NotThenable ->
  fetches (getCurrentShip E shipId c force st).2 = fetches st
  /\ (property_key E shipId <> "length" ->
      property_key E shipId <> "__proto__" ->
      _cache (getCurrentShip E shipId c force st).2 !! property_key E shipId
      = Some SNative).
Proof.
  unfold getCurrentShip.
  set (key := property_key E shipId).
  set (st1 := if force then cache_clear key st else st).
  assert (Hf : fetches st1 = fetches st).
  { unfold st1. destruct force; [apply cache_clear_fetches|done]. }
  destruct (cache_get E st1 key) as [| |p| |[]] eqn:Hget; simpl; try done.
  - by destruct (String.eqb key "length").
  - by destruct (String.eqb key "length").
  - intros _. unfold cache_keep_builtin.
    destruct (String.eqb_spec key "__proto__") as [Hp|Hp]; simpl.
    + split; [by destruct (bool_decide _)|done].
    + split; [done|]. intros _ _. by rewrite lookup_insert_eq.
  - intros _. split; [done|]. intros Hl.
    unfold cache_get in Hget. rewrite (eqb_length_false _ Hl) in Hget.
    destruct (_cache st1 !! key) as [[]|]; try done.
    by destruct (_ && _).
  - by destruct (String.eqb key "length").
Qed.

(** A resolution for an index key that returns a promise gives the array
    an element. *)
Lemma getCurrentShip_element shipId c force st p :
  is_array_index (property_key E shipId) = true ->
  (getCurrentShip E shipId c force st).1 = Thenable p ->
  has_index (_cache (getCurrentShip E shipId c force st).2) = true.
Proof.
  intros Hi Hp.
  destruct (getCurrentShip_stores E shipId c force st p Hp) as [_ Hs].
  unfold has_index. apply existsb_exists.
  exists (property_key E shipId, SPromise p). split; [|done].
  by apply list_elem_of_In, elem_of_map_to_list.
Qed.

End Builtins.

(** X5. The cache stays well formed: if every property the code has put
    on [_cache] is the promise of an issued fetch or a built-in value the
    array inherits under that key, the same holds after any
    [getCurrentShip], forced or not.  When the call returns a promise, the
    key is not [length], the promise is that of an issued fetch and is
    what the cache holds for the ship id afterwards; when it throws, the
    key is [length] and the fetch has been issued; when it returns what
    is no promise, no fetch has been issued and, the key being neither
    [length] nor [__proto__], the array owns the built-in value
    afterwards. *)
Theorem getCurrentShip_keeps_cache_ok (E : engine) (shipId : value) (c : Client)
    (force : bool) (st : tenant_state) :
  cache_ok E st ->
  cache_ok E (getCurrentShip E shipId c force st).2
  /\ (forall p,
        (getCurrentShip E shipId c force st).1 = Thenable p ->
        property_key E shipId <> "length"
        /\ (p < List.length (fetches (getCurrentShip E shipId c force st).2))%nat
        /\ _cache (getCurrentShip E shipId c force st).2 !! property_key E shipId
           = Some (SPromise p))
  /\ (forall f,
        (getCurrentShip E shipId c force st).1 = Throws f ->
        property_key E shipId = "length" /\ f = InvalidArrayLength
        /\ fetches (getCurrentShip E shipId c force st).2
           = fetches st ++ [(c, shipId)])
  /\ ((getCurrentShip E shipId c force st).1 = NotThenable ->
      fetches (getCurrentShip E shipId c force st).2 = fetches st
      /\ (property_key E shipId <> "length" ->
          property_key E shipId <> "__proto__" ->
          _cache (getCurrentShip E shipId c force st).2 !! property_key E shipId
          = Some SNative)).
Proof.
  intros Hok.
  pose proof (getCurrentShip_ok E shipId c force st Hok) as Hok'.
  split; [done|]. split; [|split].
  - intros p Hp.
    destruct (getCurrentShip_stores E shipId c force st p Hp) as [Hl Hs].
    split; [done|]. split; [|done]. apply (Hok' _ _ Hs).
  - intros f. unfold getCurrentShip.
    set (key := property_key E shipId).
    set (st1 := if force then cache_clear key st else st).
    assert (Hf : fetches st1 = fetches st).
    { unfold st1. destruct force; [apply cache_clear_fetches|done]. }
    destruct (cache_get E st1 key) as [| |p| |[]]; simpl; try done;
      destruct (String.eqb_spec key "length") as [Hl|Hl]; simpl; try done;
      intros [= <-]; by rewrite Hf.
  - apply getCurrentShip_builtin.
Qed.

Lemma getCurrentShip_keeps_cache_ok_witness :
  cache_ok sample_engine
    (getCurrentShip sample_engine (VStr "ship2") (client_for "ship2") false
       cached_state).2.
Proof.
  refine (proj1 (getCurrentShip_keeps_cache_ok sample_engine (VStr "ship2")
                   (client_for "ship2") false cached_state _)).
  intros key sl. unfold cached_state. simpl.
  destruct (decide (key = "ship1")) as [->|Hne].
  - rewrite lookup_insert_eq. intros [= <-]. simpl. lia.
  - rewrite lookup_insert_ne by done. by rewrite lookup_empty.
Defined.

(** X6. On a well-formed cache, a forced [getCurrentShip] for a ship id
    other than [length] issues a fetch and returns its promise, which
    differs from every promise the cache held before the call. *)
Theorem getCurrentShip_forced_is_fresh (E : engine) (shipId : value) (c : Client)
    (st : tenant_state) :
  cache_ok E st ->
  property_key E shipId <> "length" ->
  (getCurrentShip E shipId c true st).1 = Thenable (List.length (fetches st))
  /\ fetches (getCurrentShip E shipId c true st).2 = fetches st ++ [(c, shipId)]
  /\ forall key q, _cache st !! key = Some (SPromise q) ->
       Thenable q <> (getCurrentShip E shipId c true st).1.
Proof.
  intros Hok Hl.
  destruct (getCurrentShip_forced E shipId c st Hl) as (Hr & Hf & _).
  split; [done|]. split; [done|].
  intros key q Hq. rewrite Hr. intros [= ->].
  specialize (Hok _ _ Hq). simpl in Hok. lia.
Qed.

Lemma getCurrentShip_forced_is_fresh_witness :
  (getCurrentShip sample_engine (VStr "ship1") sample_client true
     cached_state).1 = Thenable 1.
Proof.
  refine (proj1 (getCurrentShip_forced_is_fresh sample_engine (VStr "ship1")
                   sample_client cached_state _ _)).
  - intros key sl. unfold cached_state. simpl.
    destruct (decide (key = "ship1")) as [->|Hne].
    + rewrite lookup_insert_eq. intros [= <-]. simpl. lia.
    + rewrite lookup_insert_ne by done. by rewrite lookup_empty.
  - simpl. discriminate.
Defined.

Section Frame.

Variable E : engine.

Lemma getCurrentShip_other shipId c force st key' :
  force = false \/ property_key E shipId <> "length" ->
  key' <> property_key E shipId ->
  _cache (getCurrentShip E shipId c force st).2 !! key' = _cache st !! key'.
Proof.
  intros Hforce Hne. unfold getCurrentShip.
  set (k := property_key E shipId) in *.
  set (st1 := if force then cache_clear k st else st).
  assert (H1 : _cache st1 !! key' = _cache st !! key').
  { unfold st1. destruct force; [|done]. destruct Hforce as [?|Hl]; [done|].
    by apply cache_clear_other. }
  destruct (cache_get E st1 k) as [| |p| |[]]; simpl; try done.
  - destruct (String.eqb k "length"); simpl; [done|]. by rewrite lookup_insert_ne.
  - destruct (String.eqb k "length"); simpl; [done|]. by rewrite lookup_insert_ne.
  - by rewrite lookup_insert_ne.
  - unfold cache_keep_builtin. destruct (_ && _); [done|]. simpl.
    by rewrite lookup_insert_ne.
  - destruct (String.eqb k "length"); simpl; [done|]. by rewrite lookup_insert_ne.
Qed.

Lemma getCurrentShip_detached shipId c force st :
  force = false \/ property_key E shipId <> "__proto__" ->
  detached (getCurrentShip E shipId c force st).2 = detached st.
Proof.
  intros Hforce. unfold getCurrentShip.
  set (k := property_key E shipId) in *.
  set (st1 := if force then cache_clear k st else st).
  assert (H1 : detached st1 = detached st).
  { unfold st1. destruct force; [|done]. destruct Hforce as [?|Hp]; [done|].
    unfold cache_clear. destruct (String.eqb k "length"); [done|].
    destruct (String.eqb_spec k "__proto__"); [done|]. done. }
  destruct (cache_get E st1 k) as [| |p| |[]]; simpl; try done.
  - by destruct (String.eqb k "length").
  - by destruct (String.eqb k "length").
  - unfold cache_keep_builtin. by destruct (_ && _).
  - by destruct (String.eqb k "length").
Qed.

Lemma getCurrentShip_truncates shipId c st key' :
  property_key E shipId = "length" ->
  is_array_index key' = true ->
  _cache (getCurrentShip E shipId c true st).2 !! key' = None.
Proof.
  intros Hl Hi. unfold getCurrentShip. rewrite Hl. unfold cache_get. simpl.
  assert (Hnone : filter (fun kv : string * slot => is_array_index kv.1 = false)
                    (_cache st) !! key' = None).
  { apply map_lookup_filter_None. right. intros sl _. simpl. by rewrite Hi. }
  by destruct (has_index _); simpl.
Qed.

Lemma getCurrentShip_detaches shipId c st :
  property_key E shipId = "__proto__" ->
  detached st = false -> _cache st !! "__proto__" = None ->
  detached (getCurrentShip E shipId c true st).2 = true.
Proof.
  intros Hp Hd Hown. unfold getCurrentShip. rewrite Hp.
  unfold cache_clear. simpl. rewrite Hd, Hown. simpl.
  unfold cache_get. simpl. by rewrite Hown.
Qed.

End Frame.

(** X7. [getCurrentShip] for one ship id, unless it is forced for
    [length], leaves what the cache holds under every other key as it
    was; unless it is forced for [length] or [__proto__], every other key
    except [length] also reads as before.  A forced call for [length]
    removes every element of the array, and a forced call for [__proto__]
    takes the prototype away from an array that has it.  Any call adds at
    most its own fetch to the fetches issued so far. *)
Theorem getCurrentShip_frame (E : engine) (shipId : value) (c : Client)
    (force : bool) (st : tenant_state) (key' : string) :
  key' <> property_key E shipId ->
  (force = false \/ property_key E shipId <> "length" ->
   _cache (getCurrentShip E shipId c force st).2 !! key' = _cache st !! key')
  /\ (force = false
      \/ (property_key E shipId <> "length"
          /\ property_key E shipId <> "__proto__") ->
      key' <> "length" ->
      cache_get E (getCurrentShip E shipId c force st).2 key'
      = cache_get E st key')
  /\ (force = true -> property_key E shipId = "length" ->
      is_array_index key' = true ->
      _cache (getCurrentShip E shipId c force st).2 !! key' = None)
  /\ (force = true -> property_key E shipId = "__proto__" ->
      detached st = false -> _cache st !! "__proto__" = None ->
      detached (getCurrentShip E shipId c force st).2 = true)
  /\ (fetches (getCurrentShip E shipId c force st).2 = fetches st
      \/ fetches (getCurrentShip E shipId c force st).2
         = fetches st ++ [(c, shipId)]).
Proof.
  intros Hne. split; [|split; [|split; [|split]]].
  - intros Hforce. by apply getCurrentShip_other.
  - intros Hforce Hl. unfold cache_get. rewrite (eqb_length_false _ Hl).
    rewrite getCurrentShip_other, getCurrentShip_detached; [done|tauto|tauto|done].
  - intros -> Hl Hi. by apply getCurrentShip_truncates.
  - intros -> Hp Hd Hown. by apply getCurrentShip_detaches.
  - apply getCurrentShip_log.
Qed.

Lemma getCurrentShip_frame_witness :
  cache_get sample_engine
    (getCurrentShip sample_engine (VStr "ship2") (client_for "ship2") true
       cached_state).2 "ship1"
  = CPromise 0.
Proof.
  refine (eq_trans (proj1 (proj2 (getCurrentShip_frame sample_engine (VStr "ship2")
                     (client_for "ship2") true cached_state "ship1" _)) _ _) _).
  - simpl. discriminate.
  - right. simpl. split; discriminate.
  - discriminate.
  - reflexivity.
Defined.

(** X8. What a resolution returned as a promise is what the next
    resolution of the same ship id gets when the later request is no
    [ship:update], however the fetch ends: the second request issues no
    fetch and sees the fate of the first one's promise.  In particular a
    failed fetch stays in the cache, and later requests for that ship are
    answered 400 with the same error. *)
Theorem resolution_shares_promise (E : engine)
    (handleError : string -> value -> result) (fate_of : nat -> fate)
    (req1 req2 : request) (st : tenant_state) (p : nat) :
  let c1 := {| organization := config_value (lookup_prop "organization" (query req1));
               id := config_value (lookup_prop "ship" (query req1));
               secret := config_value (lookup_prop "secret" (query req1)) |} in
  let c2 := {| organization := config_value (lookup_prop "organization" (query req2));
               id := config_value (lookup_prop "ship" (query req2));
               secret := config_value (lookup_prop "secret" (query req2)) |} in
  let first := enrichWithHullClient E handleError fate_of req1 st in
  truthy (organization c1) && truthy (id c1) && truthy (secret c1) = true ->
  truthy (organization c2) && truthy (id c2) && truthy (secret c2) = true ->
  property_key E (id c2) = property_key E (id c1) ->
  (getCurrentShip E (id c1) c1 (forceShipUpdate req1) st).1 = Thenable p ->
  field (message (hull req2)) "Subject" <> VStr "ship:update" ->
  enrichWithHullClient E handleError fate_of req2 first.2
  = (match fate_of p with
     | Resolves s => continue (with_ship (with_client req2 c2) s)
     | Rejects err => handleError (toString err) (VNum 400)
     | Pending => {| effects := []; outcome_of := Stalled |}
     end, first.2).
Proof.
  intros c1 c2 first H1 H2 Hkey Hp Hsubject.
  assert (Hfirst : first.2
                   = (getCurrentShip E (id c1) c1 (forceShipUpdate req1) st).2).
  { unfold first. by rewrite (enrich_resolves E handleError fate_of req1 st H1). }
  rewrite (enrich_resolves E handleError fate_of req2 first.2 H2).
  fold c2. rewrite (forceShipUpdate_off req2 Hsubject).
  destruct (getCurrentShip_stores E (id c1) c1 (forceShipUpdate req1) st p Hp)
    as [Hl Hs].
  assert (Hhit : _cache first.2 !! property_key E (id c2) = Some (SPromise p)).
  { by rewrite Hfirst, Hkey. }
  rewrite <- Hkey in Hl.
  by rewrite (getCurrentShip_cached E (id c2) c2 first.2 p Hl Hhit).
Qed.

Lemma resolution_shares_promise_witness :
  enrichWithHullClient sample_engine (errorHandler false)
    (fun _ => Rejects boom) tenant_request
    (enrichWithHullClient sample_engine (errorHandler false)
       (fun _ => Rejects boom) ship_update_request cached_state).2
  = ({| effects := []; outcome_of := Responded (VNum 400) "Error: boom" |},
     (enrichWithHullClient sample_engine (errorHandler false)
        (fun _ => Rejects boom) ship_update_request cached_state).2).
Proof.
  refine (resolution_shares_promise sample_engine (errorHandler false)
            (fun _ => Rejects boom) ship_update_request tenant_request
            cached_state 1 eq_refl eq_refl eq_refl eq_refl _).
  discriminate.
Defined.

Section PipelineState.

Variable E : engine.

Lemma handle_state P w req :
  (handle E P w req).2 = P
  \/ exists req2,
       (handle E P w req).2
       = {| options_of := options_of P; _handlers := _handlers P;
            tenants := (enrichWithHullClient E
                          (errorHandler (Options.onError (options_of P)))
                          (fate_of w) req2 (tenants P)).2 |}.
Proof.
  unfold handle.
  destruct (outcome_of (and_then _ _)) as [req2| | |f]; [|by left..].
  right. exists req2.
  by destruct (enrichWithHullClient E _ (fate_of w) req2 (tenants P)).
Qed.

End PipelineState.

(** X9. Handling a request never touches the options or the registry of
    the pipeline, issues at most one fetch, and keeps the cache well
    formed. *)
Theorem handle_keeps_pipeline (E : engine) (P : pipeline) (w : world)
    (req : request) :
  cache_ok E (tenants P) ->
  options_of (handle E P w req).2 = options_of P
  /\ _handlers (handle E P w req).2 = _handlers P
  /\ cache_ok E (tenants (handle E P w req).2)
  /\ (fetches (tenants (handle E P w req).2) = fetches (tenants P)
      \/ exists fetch,
           fetches (tenants (handle E P w req).2) = fetches (tenants P) ++ [fetch]).
Proof.
  intros Hok.
  destruct (handle_state E P w req) as [->|(req2 & ->)]; [by auto|].
  simpl. split; [done|]. split; [done|].
  destruct (enrich_state E (errorHandler (Options.onError (options_of P)))
              (fate_of w) req2 (tenants P)) as [->|(shipId & c & ->)]; [by auto|].
  split; [by apply getCurrentShip_ok|].
  destruct (getCurrentShip_log E shipId c (forceShipUpdate req2) (tenants P))
    as [->| ->]; [by left|].
  right. by eexists.
Qed.

Lemma handle_keeps_pipeline_witness :
  fetches (tenants (handle widget_engine widget_pipeline widget_world
                      tenant_request).2) = [(sample_client, VStr "ship1")]
  /\ cache_ok widget_engine
       (tenants (handle widget_engine widget_pipeline widget_world
                   tenant_request).2).
Proof.
  split; [reflexivity|].
  refine (proj1 (proj2 (proj2 (handle_keeps_pipeline widget_engine
            widget_pipeline widget_world tenant_request _)))).
  intros key sl. simpl. by rewrite lookup_empty.
Defined.

Section Envelopes.

Variable E : engine.

Lemma lookup_assign_same k v props : lookup_prop k (assign_prop k v props) = v.
Proof.
  induction props as [|[k' v'] props IH]; simpl.
  - by rewrite String.eqb_refl.
  - destruct (String.eqb k k') eqn:Hk; simpl; by rewrite ?String.eqb_refl, ?Hk.
Qed.

Lemma lookup_assign_other k k' v props :
  k' <> k -> lookup_prop k' (assign_prop k v props) = lookup_prop k' props.
Proof.
  intros Hne. induction props as [|[k0 v0] props IH]; simpl.
  - by destruct (String.eqb_spec k' k).
  - destruct (String.eqb_spec k k0) as [->|Hk]; simpl.
    + by destruct (String.eqb_spec k' k0).
    + destruct (String.eqb_spec k' k0); done.
Qed.

Lemma handle_not_verified P w req body m r :
  read w = ReadText body ->
  JSON_parse E (VStr body) = Some m ->
  verifySignature E (verify_options_of (options_of P))
    (errorHandler (Options.onError (options_of P)))
    (validation w) (handshake w) (with_message req m) = r ->
  (forall req', outcome_of r <> Next req') ->
  handle E P w req = (r, P).
Proof.
  intros Hread Hp Hr Hno. apply handle_stops_early; [|done].
  by rewrite (handle_verified E P w req body m).
Qed.

(** The pipeline on an envelope of [Type] [Notification] whose [Message]
    parses: the three later stages, run on the request that carries the
    notification. *)
Lemma handle_notification P w req body m payload :
  read w = ReadText body ->
  JSON_parse E (VStr body) = Some m ->
  field m "Type" = VStr "Notification" ->
  JSON_parse E (field m "Message") = Some payload ->
  let handleError := errorHandler (Options.onError (options_of P)) in
  let req2 := with_notification (with_message req m)
                (VObj [("subject", field m "Subject");
                       ("message", grouped E (verify_options_of (options_of P)) payload);
                       ("timestamp", VDate (field m "Timestamp"))]) in
  let enriched := enrichWithHullClient E handleError (fate_of w) req2 (tenants P) in
  handle E P w req
  = (after (warning (validation w) m)
       (and_then (and_then enriched.1
                    (processHandlers E (_handlers P) handleError (settlements w)))
                 (fun _ => res_end "ok")),
     {| options_of := options_of P; _handlers := _handlers P;
        tenants := enriched.2 |}).
Proof.
  intros Hread Hp Ht Hpayload handleError req2 enriched.
  assert (Hs : is_string (field m "Type") "Notification" = true)
    by by apply is_string_true.
  unfold handle. rewrite (handle_verified E P w req body m) by done.
  rewrite verifySignature_pipeline by apply (typed_is_truthy _ _ Hs).
  rewrite (route_notification E _ _ _ _ payload) by done.
  simpl. fold handleError. rewrite app_nil_r.
  change (enrichWithHullClient E handleError (fate_of w) _ (tenants P))
    with enriched.
  by destruct enriched.
Qed.

End Envelopes.

(** X10. A body that decodes to a falsy value ([null], [0], [false], the
    empty string) is answered 400 [Empty Message] before the validator is
    consulted: no warning is logged even when the signature would not
    validate, and nothing later runs. *)
Theorem handle_empty_message (E : engine) (P : pipeline) (w : world)
    (req : request) (body : string) (m : value) :
  read w = ReadText body ->
  JSON_parse E (VStr body) = Some m ->
  truthy m = false ->
  handle E P w req
  = ({| effects := if Options.onError (options_of P)
                   then [Observed "Empty Message" (VNum 400)] else [];
        outcome_of := Responded (VNum 400) "Empty Message" |}, P).
Proof.
  intros Hread Hp Hm.
  apply (handle_not_verified E P w req body m); try done.
  unfold verifySignature. simpl. by rewrite Hm.
Qed.

Lemma handle_empty_message_witness :
  handle null_engine sample_pipeline sample_world blank_request
  = ({| effects := [Observed "Empty Message" (VNum 400)];
        outcome_of := Responded (VNum 400) "Empty Message" |},
     sample_pipeline).
Proof.
  exact (handle_empty_message null_engine sample_pipeline sample_world
           blank_request "confirmation" VNull eq_refl eq_refl eq_refl).
Defined.

(** X11. An envelope of [Type] [Notification] whose [Message] does not
    parse is answered 400 [Invalid message]; no notification is built, no
    fetch is issued and no handler is called. *)
Theorem handle_invalid_message (E : engine) (P : pipeline) (w : world)
    (req : request) (body : string) (m : value) :
  read w = ReadText body ->
  JSON_parse E (VStr body) = Some m ->
  field m "Type" = VStr "Notification" ->
  JSON_parse E (field m "Message") = None ->
  handle E P w req
  = ({| effects := warning (validation w) m
                   ++ (if Options.onError (options_of P)
                       then [Observed "Invalid message" (VNum 400)] else []);
        outcome_of := Responded (VNum 400) "Invalid message" |}, P).
Proof.
  intros Hread Hp Ht Hmsg.
  assert (Hs : is_string (field m "Type") "Notification" = true)
    by by apply is_string_true.
  apply (handle_not_verified E P w req body m); try done.
  rewrite verifySignature_pipeline by apply (typed_is_truthy _ _ Hs).
  unfold route. simpl. rewrite Ht, Hmsg. reflexivity.
Qed.

Lemma handle_invalid_message_witness :
  handle broken_engine sample_pipeline broken_world blank_request
  = ({| effects := [] ++ [Observed "Invalid message" (VNum 400)];
        outcome_of := Responded (VNum 400) "Invalid message" |},
     sample_pipeline).
Proof.
  exact (handle_invalid_message broken_engine sample_pipeline
           broken_world blank_request "broken" broken_envelope
           eq_refl eq_refl eq_refl eq_refl).
Defined.

(** X12. Trait grouping rewrites the [user] of the payload and nothing
    else: every other property reads as before, and [user] reads as
    [group(user)] when it was truthy and grouping is on, as before
    otherwise.  Grouping is off only when the option [groupTraits] is
    exactly [false]. *)
Theorem grouped_touches_user_only (E : engine) (opts : verify_options)
    (options : Options.t) (payload : value) (k : string) :
  k <> "user" ->
  field (grouped E opts payload) k = field payload k
  /\ field (grouped E opts payload) "user"
     = (if truthy (field payload "user") && groupTraits opts
        then group E (field payload "user") else field payload "user")
  /\ (groupTraits (verify_options_of options) = false
      <-> Options.groupTraits options = VBool false).
Proof.
  intros Hk. split; [|split].
  - unfold grouped.
    destruct (truthy payload && truthy (field payload "user") && groupTraits opts);
      [|done].
    destruct payload; try done. simpl. by apply lookup_assign_other.
  - unfold grouped. destruct payload as [| | b | n | s | items | props | d];
      try (by cbn; rewrite ?andb_false_r; cbn).
    simpl truthy at 1. rewrite andb_true_l.
    destruct (truthy (field (VObj props) "user") && groupTraits opts); [|done].
    simpl. apply lookup_assign_same.
  - unfold verify_options_of. simpl.
    destruct (Options.groupTraits options) as [| | [] | | | | |]; split; done.
Qed.

Lemma grouped_touches_user_only_witness :
  field (grouped grouping_engine (verify_options_of sample_options)
           sample_payload) "events"
  = VArr [VStr "e1"; VStr "e2"].
Proof.
  refine (eq_trans (proj1 (grouped_touches_user_only grouping_engine
    (verify_options_of sample_options) sample_options sample_payload "events" _)) _).
  - discriminate.
  - reflexivity.
Defined.

Section DispatchEdges.

Variable E : engine.

Implicit Types (handlers : gmap string (list handler)) (fns : list handler).

Lemma sub_events_off eventHandlers eventName req ctx :
  eventName <> "user:update" \/ eventHandlers = [] ->
  sub_events E eventHandlers eventName req ctx = ([], None).
Proof.
  intros [Hne| ->]; unfold sub_events; [|done].
  destruct (String.eqb_spec eventName "user:update"); [done|].
  by rewrite andb_false_r.
Qed.

Lemma dispatch_direct_only handlers req subject :
  let ctx := {| ctx_req := req; ctx_ship := ship (hull req);
                ctx_hull := client (hull req) |} in
  let direct := default [] (handlers !! getHandlerName E subject) in
  prop (message (hull req)) "Subject" = Some (VStr subject) ->
  Object_prototype (getHandlerName E subject) = None
  \/ is_Some (handlers !! getHandlerName E subject) ->
  sub_events E (default [] (handlers !! "event")) (getHandlerName E subject) req ctx
  = ([], None) ->
  Forall (fun fn => fn (notification (hull req)) ctx = Returned) direct ->
  dispatch E handlers req
  = (map (fun fn => Invoked fn (notification (hull req)) ctx) direct,
     inr (List.length direct)).
Proof.
  intros ctx direct Hsubj Hplain Hoff Hret. unfold dispatch. rewrite Hsubj.
  fold ctx.
  rewrite (direct_calls E _ _ _ _ Hplain Hret), Hoff, app_nil_r.
  by rewrite length_map.
Qed.

(** A built-in function of one parameter or more under the canonical
    name makes the stage fail before any call. *)
Lemma dispatch_builtin handlers req subject name arity :
  prop (message (hull req)) "Subject" = Some (VStr subject) ->
  registry_get handlers (getHandlerName E subject)
  = Some (Builtin (NFunction name arity)) ->
  (0 < arity)%nat ->
  dispatch E handlers req
  = ([], inl (raised E (NotAFunction "messageHandlers.map"))).
Proof.
  intros Hsubj Hget Hpos. unfold dispatch, direct_handlers.
  rewrite Hsubj, Hget.
  by rewrite (proj2 (Nat.ltb_lt 0 arity) Hpos).
Qed.

(** The prototype object and a built-in function without parameter fail
    the test of their [length]: nothing is called. *)
Lemma dispatch_skipped handlers req subject n :
  prop (message (hull req)) "Subject" = Some (VStr subject) ->
  handlers !! getHandlerName E subject = None ->
  Object_prototype (getHandlerName E subject) = Some n ->
  n = NObjectPrototype \/ (exists name, n = NFunction name 0) ->
  dispatch E handlers req = ([], inr 0%nat).
Proof.
  intros Hsubj Hnone Hin Hn. unfold dispatch, direct_handlers, registry_get.
  unfold handler in *. rewrite Hsubj, Hnone, Hin.
  assert (Hne : getHandlerName E subject <> "user:update").
  { intros Heq. rewrite Heq in Hin. discriminate Hin. }
  rewrite (sub_events_off _ _ _ _ (or_introl Hne)).
  by destruct Hn as [->|(name & ->)].
Qed.

Lemma await_all_never trace : forall pending seen i,
  In i pending -> ~ In i (map fst trace) ->
  Forall (fun e => snd e = Fulfilled) trace ->
  await_all pending trace seen = None.
Proof.
  induction trace as [|[j s] trace IH]; intros pending seen i Hin Hnot Hful.
  - by destruct pending.
  - apply Forall_cons_1 in Hful as [Hs Hful]. simpl in Hs. subst s.
    assert (Hne : i <> j) by (intros ->; apply Hnot; by left).
    assert (Hnot' : ~ In i (map fst trace)) by (intros H; apply Hnot; by right).
    destruct pending as [|a pending]; [done|].
    rewrite await_all_step. destruct (existsb (Nat.eqb j) (a :: pending)).
    + apply (IH _ _ i); [by apply in_filter_other|done..].
    + by apply (IH _ _ i).
Qed.

Lemma await_all_settles trace : forall pending seen,
  Forall (fun e => snd e = Fulfilled) trace ->
  (forall i, In i pending -> In i (map fst trace)) ->
  exists k, await_all pending trace seen = Some (AllFulfilled, k).
Proof.
  induction trace as [|[j s] trace IH]; intros pending seen Hful Hall.
  - destruct pending as [|a pending]; [by eexists|].
    destruct (Hall a); by left.
  - apply Forall_cons_1 in Hful as [Hs Hful]. simpl in Hs. subst s.
    destruct pending as [|a pending]; [by eexists|].
    rewrite await_all_step.
    destruct (existsb (Nat.eqb j) (a :: pending)) eqn:Hj.
    + apply IH; [done|]. intros i [Hi Hf]%filter_In.
      apply negb_true_iff, Nat.eqb_neq in Hf.
      destruct (Hall i Hi) as [Heq|]; [simpl in Heq; congruence|done].
    + apply IH; [done|]. intros i Hi.
      destruct (Hall i Hi) as [Heq|]; [|done]. simpl in Heq. subst i.
      apply existsb_eqb in Hi. congruence.
Qed.

End DispatchEdges.

(** X13. When [handlers[eventName]] is undefined for the event's canonical
    name (nothing is registered under it and it names no property of
    [Object.prototype]) and the sub-event rule does not apply (another
    event, or no handler under [event]), the stage calls [next] at once,
    calls nothing, and pays no attention to any promise.  When nothing is
    registered and the name is that of a built-in function of one
    parameter or more, the stage answers 500 with the engine's text for
    the failed call of [map]; when it is that of a built-in function
    without parameter or of the prototype object, the stage calls [next]
    at once. *)
Theorem processHandlers_no_handlers (E : engine)
    (handlers : gmap string (list handler)) (onError : bool)
    (trace : list (nat * settlement)) (req : request) (subject : string) :
  prop (message (hull req)) "Subject" = Some (VStr subject) ->
  handlers !! getHandlerName E subject = None ->
  (Object_prototype (getHandlerName E subject) = None ->
   getHandlerName E subject <> "user:update" \/ handlers !! "event" = None ->
   processHandlers E handlers (errorHandler onError) trace req = continue req)
  /\ (forall name arity,
        Object_prototype (getHandlerName E subject) = Some (NFunction name arity) ->
        (0 < arity)%nat ->
        processHandlers E handlers (errorHandler onError) trace req
        = {| effects :=
               if onError
               then [Observed (fault_text E (NotAFunction "messageHandlers.map"))
                              (VNum 500)]
               else [];
             outcome_of :=
               Responded (VNum 500)
                 (fault_text E (NotAFunction "messageHandlers.map")) |})
  /\ (forall n,
        Object_prototype (getHandlerName E subject) = Some n ->
        n = NObjectPrototype \/ (exists name, n = NFunction name 0) ->
        processHandlers E handlers (errorHandler onError) trace req
        = continue req).
Proof.
  intros Hsubj Hnone. split; [|split].
  - intros Hplain Hoff. unfold processHandlers.
    rewrite (dispatch_direct_only E handlers req subject Hsubj).
    + unfold handler in *. rewrite Hnone. reflexivity.
    + by left.
    + apply sub_events_off. destruct Hoff as [H|H]; [by left|right].
      unfold handler in *. by rewrite H.
    + unfold handler in *. rewrite Hnone. constructor.
  - intros name arity Hin Hpos. unfold processHandlers.
    rewrite (dispatch_builtin E handlers req subject name arity Hsubj); [done| |done].
    unfold registry_get. unfold handler in *. by rewrite Hnone, Hin.
  - intros n Hin Hn. unfold processHandlers.
    by rewrite (dispatch_skipped E handlers req subject n Hsubj Hnone Hin Hn).
Qed.

Lemma processHandlers_no_handlers_witness :
  processHandlers sample_engine ∅ (errorHandler true)
    [(0%nat, Rejected boom)] user_update_request
  = continue user_update_request
  /\ processHandlers sample_engine ∅ (errorHandler true) []
       (with_message user_update_request
          (VObj [("Type", VStr "Notification"); ("Subject", VStr ":constructor")]))
     = {| effects :=
            [Observed "TypeError: messageHandlers.map is not a function" (VNum 500)];
          outcome_of :=
            Responded (VNum 500)
              "TypeError: messageHandlers.map is not a function" |}
  /\ processHandlers sample_engine ∅ (errorHandler true) []
       (with_message user_update_request
          (VObj [("Type", VStr "Notification"); ("Subject", VStr ":toString")]))
     = continue
         (with_message user_update_request
            (VObj [("Type", VStr "Notification"); ("Subject", VStr ":toString")])).
Proof.
  split; [|split].
  - refine (proj1 (processHandlers_no_handlers sample_engine ∅ true
              [(0%nat, Rejected boom)] user_update_request "user_report:update"
              eq_refl _) _ _).
    + apply lookup_empty.
    + reflexivity.
    + right. apply lookup_empty.
  - refine (proj1 (proj2 (processHandlers_no_handlers sample_engine ∅ true []
              (with_message user_update_request
                 (VObj [("Type", VStr "Notification");
                        ("Subject", VStr ":constructor")]))
              ":constructor" eq_refl _)) "Object" 1%nat _ _).
    + apply lookup_empty.
    + reflexivity.
    + lia.
  - refine (proj2 (proj2 (processHandlers_no_handlers sample_engine ∅ true []
              (with_message user_update_request
                 (VObj [("Type", VStr "Notification");
                        ("Subject", VStr ":toString")]))
              ":toString" eq_refl _)) (NFunction "toString" 0) _ _).
    + apply lookup_empty.
    + reflexivity.
    + right. by exists "toString".
Defined.

(** X14. The sub-event rule is for [user:update] only: for a subject that
    derives to any other name, under which the registry holds a list or
    which names no property of [Object.prototype], the calls are those of
    the handlers registered under that name and no more, whatever [events]
    the payload carries and whatever is registered under [event]. *)
Theorem dispatch_other_event (E : engine) (handlers : gmap string (list handler))
    (req : request) (subject : string) :
  let ctx := {| ctx_req := req; ctx_ship := ship (hull req);
                ctx_hull := client (hull req) |} in
  let direct := default [] (handlers !! getHandlerName E subject) in
  prop (message (hull req)) "Subject" = Some (VStr subject) ->
  getHandlerName E subject <> "user:update" ->
  Object_prototype (getHandlerName E subject) = None
  \/ is_Some (handlers !! getHandlerName E subject) ->
  Forall (fun fn => fn (notification (hull req)) ctx = Returned) direct ->
  dispatch E handlers req
  = (map (fun fn => Invoked fn (notification (hull req)) ctx) direct,
     inr (List.length direct)).
Proof.
  intros ctx direct Hsubj Hne Hplain Hret.
  apply dispatch_direct_only; [done|done| |done].
  apply sub_events_off. by left.
Qed.

Lemma dispatch_other_event_witness :
  dispatch sample_engine bulk_registered
    (with_message user_update_request
       (VObj [("Type", VStr "Notification"); ("Subject", VStr "widget:create")]))
  = ([], inr 0%nat).
Proof.
  refine (dispatch_other_event sample_engine bulk_registered
    (with_message user_update_request
       (VObj [("Type", VStr "Notification"); ("Subject", VStr "widget:create")]))
    "widget:create" _ _ _ _).
  - reflexivity.
  - discriminate.
  - left. reflexivity.
  - constructor.
Defined.

(** X15. A [user:update] whose payload is falsy, has no [events] or has
    an empty list of them fans nothing out: the calls are those of the
    handlers of [user:update] alone. *)
Theorem user_update_without_events (E : engine)
    (handlers : gmap string (list handler)) (req : request)
    (subject : string) (payload : value) :
  let ctx := {| ctx_req := req; ctx_ship := ship (hull req);
                ctx_hull := client (hull req) |} in
  let direct := default [] (handlers !! getHandlerName E subject) in
  prop (message (hull req)) "Subject" = Some (VStr subject) ->
  getHandlerName E subject = "user:update" ->
  prop (notification (hull req)) "message" = Some payload ->
  truthy payload = false \/ field payload "events" = VUndefined
  \/ field payload "events" = VArr [] ->
  Forall (fun fn => fn (notification (hull req)) ctx = Returned) direct ->
  dispatch E handlers req
  = (map (fun fn => Invoked fn (notification (hull req)) ctx) direct,
     inr (List.length direct)).
Proof.
  intros ctx direct Hsubj Hname Hn Hcases Hret.
  apply dispatch_direct_only; [done| | |done].
  - left. by rewrite Hname.
  - rewrite Hname. unfold sub_events.
    destruct (_ && _); [|done]. rewrite Hn.
    destruct (truthy payload) eqn:Ht; [|done].
    destruct Hcases as [H|[-> | ->]]; [congruence|done..].
Qed.

Lemma user_update_without_events_witness :
  dispatch sample_engine event_listener
    (with_notification user_update_request
       (VObj [("message", VObj [("user", VObj [("id", VStr "u1")])])]))
  = ([], inr 0%nat).
Proof.
  refine (user_update_without_events sample_engine event_listener
    (with_notification user_update_request
       (VObj [("message", VObj [("user", VObj [("id", VStr "u1")])])]))
    "user_report:update" (VObj [("user", VObj [("id", VStr "u1")])])
    _ _ _ _ _).
  - reflexivity.
  - reflexivity.
  - reflexivity.
  - right. left. reflexivity.
  - constructor.
Defined.

(** X16. A [user:update] whose payload has [events: null] makes the stage
    fail once a handler is registered under [event]: after the calls of
    the handlers of [user:update] the read of [events.length] throws, and
    the answer is 500 with the engine's text for that exception. *)
Theorem user_update_null_events (E : engine)
    (handlers : gmap string (list handler)) (onError : bool)
    (trace : list (nat * settlement)) (req : request)
    (subject : string) (payload : value) (fn : handler) (fns : list handler) :
  let ctx := {| ctx_req := req; ctx_ship := ship (hull req);
                ctx_hull := client (hull req) |} in
  let direct := default [] (handlers !! getHandlerName E subject) in
  let text := fault_text E (ReadOf VNull "length") in
  prop (message (hull req)) "Subject" = Some (VStr subject) ->
  getHandlerName E subject = "user:update" ->
  prop (notification (hull req)) "message" = Some payload ->
  field payload "events" = VNull ->
  handlers !! "event" = Some (fn :: fns) ->
  Forall (fun f => f (notification (hull req)) ctx = Returned) direct ->
  processHandlers E handlers (errorHandler onError) trace req
  = {| effects := map (fun f => Invoked f (notification (hull req)) ctx) direct
                  ++ (if onError then [Observed text (VNum 500)] else []);
       outcome_of := Responded (VNum 500) text |}.
Proof.
  intros ctx direct text Hsubj Hname Hn Hev Hevent Hret.
  assert (Ht : truthy payload = true).
  { destruct payload as [| | [] | n | s | | |]; done. }
  assert (Hplain : Object_prototype (getHandlerName E subject) = None
                   \/ is_Some (handlers !! getHandlerName E subject)).
  { left. by rewrite Hname. }
  unfold processHandlers, dispatch. rewrite Hsubj. fold ctx.
  rewrite (direct_calls E _ _ _ _ Hplain Hret). fold direct.
  unfold handler in *. rewrite Hevent, Hname. simpl default.
  unfold sub_events. rewrite Hn, Ht, Hev. simpl.
  unfold after, direct. simpl. by rewrite Hname, app_nil_r.
Qed.

Lemma user_update_null_events_witness :
  processHandlers sample_engine event_listener (errorHandler false) []
    (with_notification user_update_request
       (VObj [("message", VObj [("events", VNull)])]))
  = {| effects := [] ++ [];
       outcome_of :=
         Responded (VNum 500)
           "TypeError: Cannot read properties of null (reading 'length')" |}.
Proof.
  refine (user_update_null_events sample_engine event_listener false []
    (with_notification user_update_request
       (VObj [("message", VObj [("events", VNull)])]))
    "user_report:update" (VObj [("events", VNull)]) returning [] _ _ _ _ _ _).
  - reflexivity.
  - reflexivity.
  - reflexivity.
  - reflexivity.
  - reflexivity.
  - constructor.
Defined.

(** X17. An envelope without a [Subject], or whose [Subject] is not a
    string, cannot be dispatched: the stage calls no handler and answers
    500 with the engine's text for the exception, which is that of reading
    [split] of [undefined] or [null] when the [Subject] is one of them,
    and that of calling a [split] that is no function otherwise. *)
Theorem processHandlers_bad_subject (E : engine)
    (handlers : gmap string (list handler)) (onError : bool)
    (trace : list (nat * settlement)) (req : request) :
  let text :=
    fault_text E
      match prop (message (hull req)) "Subject" with
      | None => ReadOf (message (hull req)) "Subject"
      | Some VUndefined => ReadOf VUndefined "split"
      | Some VNull => ReadOf VNull "split"
      | Some _ => NotAFunction "eventName.split"
      end in
  (forall subject, prop (message (hull req)) "Subject" <> Some (VStr subject)) ->
  processHandlers E handlers (errorHandler onError) trace req
  = {| effects := if onError then [Observed text (VNum 500)] else [];
       outcome_of := Responded (VNum 500) text |}.
Proof.
  intros text H. unfold text, processHandlers, dispatch.
  destruct (prop (message (hull req)) "Subject") as [[| | | |subject| | |]|] eqn:Hs;
    try done.
  by destruct (H subject).
Qed.

Lemma processHandlers_bad_subject_witness :
  processHandlers sample_engine two_handlers (errorHandler true) []
    (with_message user_update_request (VObj [("Type", VStr "Notification")]))
  = {| effects :=
         [Observed "TypeError: Cannot read properties of undefined (reading 'split')"
                   (VNum 500)];
       outcome_of :=
         Responded (VNum 500)
           "TypeError: Cannot read properties of undefined (reading 'split')" |}.
Proof.
  apply (processHandlers_bad_subject sample_engine two_handlers true []
    (with_message user_update_request (VObj [("Type", VStr "Notification")]))).
  intros subject. discriminate.
Defined.

(** X18. A handler that throws ends the dispatch: the handlers registered
    before it were called, those after it and every handler of [event]
    are not, no promise is awaited, and the answer is 500 with the error's
    text, whatever status the error carries. *)
Theorem processHandlers_stops_at_throw (E : engine)
    (handlers : gmap string (list handler)) (onError : bool)
    (trace : list (nat * settlement)) (req : request) (subject : string)
    (pre post : list handler) (fn : handler) (err : error) :
  let ctx := {| ctx_req := req; ctx_ship := ship (hull req);
                ctx_hull := client (hull req) |} in
  prop (message (hull req)) "Subject" = Some (VStr subject) ->
  handlers !! getHandlerName E subject = Some (pre ++ fn :: post) ->
  Forall (fun f => f (notification (hull req)) ctx = Returned) pre ->
  fn (notification (hull req)) ctx = Threw err ->
  processHandlers E handlers (errorHandler onError) trace req
  = {| effects := (map (fun f => Invoked f (notification (hull req)) ctx) pre
                   ++ [Invoked fn (notification (hull req)) ctx])
                  ++ (if onError then [Observed (toString err) (VNum 500)] else []);
       outcome_of := Responded (VNum 500) (toString err) |}.
Proof.
  intros ctx Hsubj Hl Hpre Hfn.
  unfold processHandlers, dispatch. rewrite Hsubj. fold ctx.
  by rewrite (direct_throws E handlers _ _ ctx pre fn post err Hl Hpre Hfn).
Qed.

Lemma processHandlers_stops_at_throw_witness :
  processHandlers sample_engine mixed_handlers (errorHandler false) []
    user_update_request
  = {| effects :=
         (map (fun f => Invoked f (notification (hull user_update_request))
                          user_update_context) [returning]
          ++ [Invoked throwing (notification (hull user_update_request))
                      user_update_context]) ++ [];
       outcome_of := Responded (VNum 500) "Error: boom" |}.
Proof.
  refine (processHandlers_stops_at_throw sample_engine mixed_handlers false []
    user_update_request "user_report:update" [returning] [returning]
    throwing boom _ _ _ _).
  - reflexivity.
  - reflexivity.
  - repeat constructor.
  - reflexivity.
Defined.

(** X19. When no started invocation rejects and one of them never
    settles, the stage neither calls [next] nor answers: the request
    hangs, the calls having been made. *)
Theorem processHandlers_hangs (E : engine) (handlers : gmap string (list handler))
    (handleError : string -> value -> result)
    (trace : list (nat * settlement)) (req : request)
    (es : list effect) (n i : nat) :
  dispatch E handlers req = (es, inr n) ->
  (i < n)%nat ->
  ~ In i (map fst trace) ->
  Forall (fun e => snd e = Fulfilled) trace ->
  processHandlers E handlers handleError trace req
  = {| effects := es; outcome_of := Stalled |}.
Proof.
  intros Hd Hi Hnot Hful. unfold processHandlers. rewrite Hd.
  assert (Hpos : (0 <? n)%nat = true) by (apply Nat.ltb_lt; lia).
  rewrite Hpos. unfold Promise_all.
  rewrite (await_all_never trace (seq 0 n) 0 i); [done| |done..].
  apply in_seq. lia.
Qed.

Lemma processHandlers_hangs_witness :
  processHandlers sample_engine two_handlers (errorHandler true)
    [(0%nat, Fulfilled)] user_update_request
  = {| effects :=
         [Invoked returning (notification (hull user_update_request))
                  user_update_context;
          Invoked returning (notification (hull user_update_request))
                  user_update_context];
       outcome_of := Stalled |}.
Proof.
  refine (processHandlers_hangs sample_engine two_handlers (errorHandler true)
    [(0%nat, Fulfilled)] user_update_request _ 2 1 _ _ _ _).
  - reflexivity.
  - lia.
  - simpl. intros [H|[]]. discriminate.
  - repeat constructor.
Defined.

(** X20. When every started invocation fulfils, the stage calls [next],
    in whatever order the fulfilments come. *)
Theorem processHandlers_all_fulfilled (E : engine)
    (handlers : gmap string (list handler))
    (handleError : string -> value -> result)
    (trace : list (nat * settlement)) (req : request)
    (es : list effect) (n : nat) :
  dispatch E handlers req = (es, inr n) ->
  Forall (fun e => snd e = Fulfilled) trace ->
  (forall i, (i < n)%nat -> In i (map fst trace)) ->
  processHandlers E handlers handleError trace req
  = {| effects := es; outcome_of := Next req |}.
Proof.
  intros Hd Hful Hall. unfold processHandlers. rewrite Hd.
  destruct (0 <? n)%nat.
  - destruct (await_all_settles trace (seq 0 n) 0 Hful) as (k & Hk).
    + intros i Hi%in_seq. apply Hall. lia.
    + unfold Promise_all. rewrite Hk. unfold after. simpl. by rewrite app_nil_r.
  - unfold after. simpl. by rewrite app_nil_r.
Qed.

Lemma processHandlers_all_fulfilled_witness :
  processHandlers sample_engine two_handlers (errorHandler true)
    [(1%nat, Fulfilled); (0%nat, Fulfilled)] user_update_request
  = {| effects :=
         [Invoked returning (notification (hull user_update_request))
                  user_update_context;
          Invoked returning (notification (hull user_update_request))
                  user_update_context];
       outcome_of := Next user_update_request |}.
Proof.
  refine (processHandlers_all_fulfilled sample_engine two_handlers
    (errorHandler true) [(1%nat, Fulfilled); (0%nat, Fulfilled)]
    user_update_request _ 2 _ _ _).
  - reflexivity.
  - repeat constructor.
  - intros i Hi. simpl. lia.
Defined.

Section Delivery.

Variable E : engine.

Lemma field_prop v k s : field v k = VStr s -> prop v k = Some (VStr s).
Proof. unfold field. destruct (prop v k); [by intros ->|done]. Qed.

Lemma and_then_continue req k : and_then (continue req) k = k req.
Proof. unfold and_then. simpl. apply after_nil. Qed.

End Delivery.

(** X21. The whole pipeline on a notification of an event other than
    [user:update], with the three query parameters present, a resolution
    that returns a promise and a fetch that resolves: every handler
    registered under the canonical name is called once, in order of
    registration, with the notification built from the envelope and a
    context that carries the resolved ship and the client built from the
    query; once all have fulfilled the answer is 200 [ok].  The canonical
    name is one under which the registry holds a list or which names no
    property of [Object.prototype]. *)
Theorem handle_delivers (E : engine) (P : pipeline) (w : world) (req : request)
    (body subject : string) (m payload sh : value) (p : nat) :
  let n := VObj [("subject", field m "Subject");
                 ("message", grouped E (verify_options_of (options_of P)) payload);
                 ("timestamp", VDate (field m "Timestamp"))] in
  let req2 := with_notification (with_message req m) n in
  let c := {| organization := config_value (lookup_prop "organization" (query req));
              id := config_value (lookup_prop "ship" (query req));
              secret := config_value (lookup_prop "secret" (query req)) |} in
  let req3 := with_ship (with_client req2 c) sh in
  let ctx := {| ctx_req := req3; ctx_ship := sh; ctx_hull := Some c |} in
  let fns := default [] (_handlers P !! getHandlerName E subject) in
  read w = ReadText body ->
  JSON_parse E (VStr body) = Some m ->
  field m "Type" = VStr "Notification" ->
  JSON_parse E (field m "Message") = Some payload ->
  field m "Subject" = VStr subject ->
  getHandlerName E subject <> "user:update" ->
  Object_prototype (getHandlerName E subject) = None
  \/ is_Some (_handlers P !! getHandlerName E subject) ->
  truthy (organization c) && truthy (id c) && truthy (secret c) = true ->
  (getCurrentShip E (id c) c (forceShipUpdate req2) (tenants P)).1 = Thenable p ->
  fate_of w p = Resolves sh ->
  Forall (fun fn => fn n ctx = Returned) fns ->
  Forall (fun e => snd e = Fulfilled) (settlements w) ->
  (forall i, (i < List.length fns)%nat -> In i (map fst (settlements w))) ->
  (handle E P w req).1
  = {| effects := warning (validation w) m ++ map (fun fn => Invoked fn n ctx) fns;
       outcome_of := Responded (VNum 200) "ok" |}.
Proof.
  intros n req2 c req3 ctx fns Hread Hp Ht Hmsg Hsubj Hne Hplain Hcfg Hgot Hfate
         Hret Hful Hall.
  rewrite (handle_notification E P w req body m payload) by done.
  simpl fst. fold n. fold req2.
  pose proof (enrich_resolves E (errorHandler (Options.onError (options_of P)))
                (fate_of w) req2 (tenants P) Hcfg) as He.
  change (getCurrentShip E _ _ (forceShipUpdate req2) (tenants P)).1
    with (getCurrentShip E (id c) c (forceShipUpdate req2) (tenants P)).1 in He.
  rewrite Hgot, Hfate in He.
  rewrite He. simpl fst. change (with_ship _ sh) with req3.
  rewrite and_then_continue.
  assert (Hd : dispatch E (_handlers P) req3
               = (map (fun fn => Invoked fn n ctx) fns, inr (List.length fns))).
  { apply (dispatch_direct_only E (_handlers P) req3 subject).
    - by apply field_prop.
    - exact Hplain.
    - apply sub_events_off. by left.
    - exact Hret. }
  unfold processHandlers. rewrite Hd.
  destruct (await_all_settles (settlements w) (seq 0 (List.length fns)) 0 Hful)
    as (k & Hk).
  { intros i Hi%in_seq. apply Hall. lia. }
  unfold Promise_all. rewrite Hk.
  destruct (0 <? List.length fns)%nat; unfold and_then, after; simpl;
    by rewrite !app_nil_r.
Qed.

Lemma handle_delivers_witness :
  (handle widget_engine widget_pipeline widget_world tenant_request).1
  = {| effects :=
         [] ++ map (fun fn => Invoked fn widget_notification widget_context)
                   [returning];
       outcome_of := Responded (VNum 200) "ok" |}.
Proof.
  refine (handle_delivers widget_engine widget_pipeline
    widget_world tenant_request "widget" "widget:create" widget_envelope
    sample_payload sample_ship 0 _ _ _ _ _ _ _ _ _ _ _ _ _).
  - reflexivity.
  - reflexivity.
  - reflexivity.
  - reflexivity.
  - reflexivity.
  - discriminate.
  - left. reflexivity.
  - reflexivity.
  - reflexivity.
  - reflexivity.
  - repeat constructor.
  - repeat constructor.
  - intros i Hi. change (i < 1)%nat in Hi. left. simpl. lia.
Defined.

Section Reporting.

Variable E : engine.

Lemma quiet_app es es' : quiet (es ++ es') = quiet es && quiet es'.
Proof. apply forallb_app. Qed.

Lemma quiet_invoke fns payload ctx : quiet (invoke fns payload ctx).1 = true.
Proof.
  induction fns as [|fn fns IH]; simpl; [done|].
  destruct (fn payload ctx); simpl; [done|].
  destruct (invoke fns payload ctx). simpl in *. exact IH.
Qed.

Lemma quiet_fan_out fns m user segments items ctx :
  quiet (fan_out fns m user segments items ctx).1 = true.
Proof.
  induction items as [|event items IH]; simpl; [done|].
  pose proof (quiet_invoke fns (event_payload m user segments event) ctx) as Hi.
  destruct (invoke fns _ ctx) as [es [e|]]; [done|].
  destruct (fan_out fns m user segments items ctx) as [es' thrown].
  simpl in *. by rewrite quiet_app, Hi, IH.
Qed.

Lemma quiet_dispatch handlers req : quiet (dispatch E handlers req).1 = true.
Proof.
  unfold dispatch.
  destruct (prop (message (hull req)) "Subject") as [[| | | |subject| | |]|];
    try done.
  set (ctx := {| ctx_req := req; ctx_ship := ship (hull req);
                 ctx_hull := client (hull req) |}).
  assert (Hd : quiet (direct_handlers E handlers (getHandlerName E subject)
                        (notification (hull req)) ctx).1 = true).
  { unfold direct_handlers.
    destruct (registry_get handlers _) as [[fns|[name arity|]]|]; try done.
    - destruct (0 <? List.length fns)%nat; [apply quiet_invoke|done].
    - by destruct (0 <? arity)%nat. }
  assert (Hs : quiet (sub_events E (default [] (handlers !! "event"))
                        (getHandlerName E subject) req ctx).1 = true).
  { unfold sub_events. destruct (_ && _); [|done].
    destruct (prop (notification (hull req)) "message") as [payload|]; [|done].
    destruct (truthy payload); [|done].
    destruct (prop (or_empty_list (field payload "events")) "length") as [len|];
      [|done].
    destruct (js_gt0 E len); [|done].
    destruct (or_empty_list (field payload "events")); try done.
    apply quiet_fan_out. }
  destruct (direct_handlers E handlers _ _ ctx) as [es [e|]]; [done|].
  destruct (sub_events E _ _ req ctx) as [es' [e|]]; simpl in *;
    by rewrite quiet_app, Hd, Hs.
Qed.

Lemma reported_error text code : answers_reported (errorHandler true text code).
Proof. right. by exists []. Qed.

Lemma reported_after es r :
  quiet es = true -> answers_reported r -> answers_reported (after es r).
Proof.
  unfold answers_reported, acknowledged, observed_last, after. simpl.
  intros Hq. destruct (outcome_of r); try (by rewrite quiet_app, Hq).
  intros [H|(es' & ->)]; [by left|right]. exists (es ++ es'). by rewrite app_assoc.
Qed.

Lemma reported_and_then r stage :
  answers_reported r -> (forall req, answers_reported (stage req)) ->
  answers_reported (and_then r stage).
Proof.
  intros Hr Hs. unfold and_then.
  destruct (outcome_of r) eqn:Ho; [|done..].
  apply reported_after; [|done].
  unfold answers_reported in Hr. by rewrite Ho in Hr.
Qed.

Lemma reported_continue req : answers_reported (continue req).
Proof. done. Qed.

Lemma reported_parse read req :
  answers_reported (parseRequest E (errorHandler true) read req).
Proof.
  unfold parseRequest. destruct read; [apply reported_error|].
  destruct (JSON_parse E _); [done|apply reported_error].
Qed.

Lemma reported_route opts handshake req :
  answers_reported (route E opts (errorHandler true) handshake req).
Proof.
  unfold route.
  destruct (is_string _ "SubscriptionConfirmation").
  - apply reported_after; [done|]. destruct handshake; [|done].
    apply reported_after; [by destruct (onSubscribe opts)|]. left. by right.
  - destruct (is_string _ "Notification"); [|done].
    destruct (JSON_parse E _); [done|apply reported_error].
Qed.

Lemma reported_verify opts validation handshake req :
  answers_reported
    (verifySignature E opts (errorHandler true) validation handshake req).
Proof.
  unfold verifySignature. destruct (negb _); [apply reported_error|].
  destruct validation; [|apply reported_route].
  destruct (enforceValidation opts); [apply reported_error|].
  apply reported_after; [done|apply reported_route].
Qed.

Lemma reported_enrich fate_of req st :
  answers_reported (enrichWithHullClient E (errorHandler true) fate_of req st).1.
Proof.
  unfold enrichWithHullClient. destruct (_ && _); [|done].
  destruct (getCurrentShip E _ _ _ st) as [[p| |f] st']; simpl; [|done..].
  destruct (fate_of p); [done|apply reported_error|done].
Qed.

Lemma reported_process handlers trace req :
  answers_reported (processHandlers E handlers (errorHandler true) trace req).
Proof.
  unfold processHandlers.
  pose proof (quiet_dispatch handlers req) as Hq.
  destruct (dispatch E handlers req) as [es [err|n]]; simpl in Hq.
  - apply reported_after, reported_error. done.
  - destruct (0 <? n)%nat; [|by apply reported_after].
    destruct (Promise_all n trace) as [[[|err] k]|]; [| |done].
    + by apply reported_after.
    + apply reported_after, reported_error. done.
Qed.

Lemma reported_handle P w req :
  Options.onError (options_of P) = true ->
  answers_reported (handle E P w req).1.
Proof.
  intros Hobs. unfold handle. rewrite Hobs.
  pose proof (reported_and_then _ _ (reported_parse (read w) req)
    (reported_verify (verify_options_of (options_of P)) (validation w)
       (handshake w))) as Hv.
  destruct (outcome_of (and_then _ _)) as [req0| | |f] eqn:Ho; [|done..].
  pose proof (reported_enrich (fate_of w) req0 (tenants P)) as He.
  destruct (enrichWithHullClient E _ (fate_of w) req0 (tenants P))
    as [enriched st']. simpl in *.
  apply reported_after.
  - unfold answers_reported in Hv. by rewrite Ho in Hv.
  - apply reported_and_then.
    + apply reported_and_then; [done|]. intros r. apply reported_process.
    + intros r. left. by left.
Qed.

End Reporting.

(** X22. With an observer installed, every answer the stages of the
    pipeline send, other than the two acknowledgements ([ok] and
    [subscribed], both 200), was offered to the observer first: the last
    thing the pipeline did before answering was to call the observer with
    the very text and status it then sent.  When the pipeline sends no
    answer, because it hangs or because an exception leaves a stage, the
    observer has not been called. *)
Theorem handle_reports_errors (E : engine) (P : pipeline) (w : world)
    (req : request) :
  Options.onError (options_of P) = true ->
  match outcome_of (handle E P w req).1 with
  | Responded code body =>
      (code = VNum 200 /\ (body = "ok" \/ body = "subscribed"))
      \/ exists es, effects (handle E P w req).1 = es ++ [Observed body code]
  | Next _ | Stalled | Escaped _ => quiet (effects (handle E P w req).1) = true
  end.
Proof.
  intros Hobs. pose proof (reported_handle E P w req Hobs) as Hrep.
  unfold answers_reported, acknowledged, observed_last in Hrep.
  destruct (outcome_of (handle E P w req).1) as [req'|code body| |f]; try done.
  destruct Hrep as [[[= -> ->]|[= -> ->]]|Hlast]; auto.
Qed.

Lemma handle_reports_errors_witness :
  ((VNum 400 = VNum 200 /\ ("Invalid message" = "ok" \/ "Invalid message" = "subscribed"))
   \/ exists es,
        effects (handle broken_engine sample_pipeline broken_world
                   blank_request).1
        = es ++ [Observed "Invalid message" (VNum 400)])
  /\ outcome_of (handle widget_engine widget_pipeline widget_world
                   (request_for "length")).1 = Escaped InvalidArrayLength
  /\ quiet (effects (handle widget_engine widget_pipeline widget_world
                       (request_for "length")).1) = true.
Proof.
  split; [|split].
  - exact (handle_reports_errors broken_engine sample_pipeline
             broken_world blank_request eq_refl).
  - reflexivity.
  - exact (handle_reports_errors widget_engine widget_pipeline widget_world
             (request_for "length") eq_refl).
Defined.

(** X23. A query parameter made of white space only (the white space of
    [String.prototype.trim], U+00A0 and U+FEFF included) counts as
    missing, given as a string or as the first element of a list: if
    [organization], [ship] or [secret] is blank, tenant resolution is
    skipped, whatever the other two are. *)
Theorem blank_parameter_skips (E : engine)
    (handleError : string -> value -> result) (fate_of : nat -> fate)
    (req : request) (st : tenant_state) (k s : string) (rest : list value) :
  k = "organization" \/ k = "ship" \/ k = "secret" ->
  lookup_prop k (query req) = VStr s
  \/ lookup_prop k (query req) = VArr (VStr s :: rest) ->
  all_space s = true ->
  enrichWithHullClient E handleError fate_of req st = (continue req, st).
Proof.
  intros Hk Hval Hs.
  assert (Hblank : truthy (config_value (lookup_prop k (query req))) = false).
  { destruct Hval as [-> | ->].
    - rewrite config_value_string, trim_all_space; done.
    - rewrite config_value_first, trim_all_space; done. }
  apply enrich_skips.
  destruct Hk as [->|[->| ->]]; rewrite Hblank; [done| |];
    by rewrite ?andb_false_r.
Qed.

Lemma blank_parameter_skips_witness :
  enrichWithHullClient sample_engine (errorHandler true) (fun _ => Pending)
    blank_ship_request cached_state
  = (continue blank_ship_request, cached_state)
  /\ enrichWithHullClient sample_engine (errorHandler true) (fun _ => Pending)
       nbsp_request cached_state
     = (continue nbsp_request, cached_state)
  /\ enrichWithHullClient sample_engine (errorHandler true) (fun _ => Pending)
       white_space_request cached_state
     = (continue white_space_request, cached_state).
Proof.
  split; [|split].
  - refine (blank_parameter_skips sample_engine (errorHandler true)
      (fun _ => Pending) blank_ship_request cached_state "ship" "  "
      [VStr "ship2"] _ _ _).
    + right. left. reflexivity.
    + right. reflexivity.
    + reflexivity.
  - refine (blank_parameter_skips sample_engine (errorHandler true)
      (fun _ => Pending) nbsp_request cached_state "secret" nbsp [] _ _ _).
    + right. right. reflexivity.
    + left. reflexivity.
    + reflexivity.
  - refine (blank_parameter_skips sample_engine (errorHandler true)
      (fun _ => Pending) white_space_request cached_state "secret"
      every_white_space [] _ _ _).
    + right. right. reflexivity.
    + left. reflexivity.
    + reflexivity.
Defined.

(** X24. A notification nobody listens to is acknowledged: with a query
    parameter missing, no handler registered for the event (nor, for a
    [user:update], under [event]) and a canonical name that names no
    property of [Object.prototype], the pipeline answers 200 [ok], calls
    nothing, fetches nothing and is left as it was. *)
Theorem handle_acknowledges_unheard (E : engine) (P : pipeline) (w : world)
    (req : request) (body subject : string) (m payload : value) :
  read w = ReadText body ->
  JSON_parse E (VStr body) = Some m ->
  field m "Type" = VStr "Notification" ->
  JSON_parse E (field m "Message") = Some payload ->
  field m "Subject" = VStr subject ->
  truthy (config_value (lookup_prop "organization" (query req)))
  && truthy (config_value (lookup_prop "ship" (query req)))
  && truthy (config_value (lookup_prop "secret" (query req))) = false ->
  registry_get (_handlers P) (getHandlerName E subject) = None ->
  getHandlerName E subject <> "user:update" \/ _handlers P !! "event" = None ->
  handle E P w req
  = ({| effects := warning (validation w) m;
        outcome_of := Responded (VNum 200) "ok" |}, P).
Proof.
  intros Hread Hp Ht Hmsg Hsubj Hcfg Hget Hoff.
  assert (Hnone : _handlers P !! getHandlerName E subject = None
                  /\ Object_prototype (getHandlerName E subject) = None).
  { unfold registry_get in Hget.
    destruct (_handlers P !! getHandlerName E subject) as [fns|] eqn:H1;
      [discriminate Hget|].
    destruct (Object_prototype (getHandlerName E subject)) eqn:H2;
      [discriminate Hget|done]. }
  destruct Hnone as [Hnone Hplain].
  rewrite (handle_notification E P w req body m payload) by done.
  rewrite enrich_skips by exact Hcfg. simpl fst. simpl snd.
  rewrite and_then_continue.
  set (req2 := with_notification _ _).
  assert (Hd : dispatch E (_handlers P) req2 = ([], inr 0%nat)).
  { unfold handler in *.
    rewrite (dispatch_direct_only E (_handlers P) req2 subject).
    - unfold handler. by rewrite Hnone.
    - by apply field_prop.
    - by left.
    - apply sub_events_off. destruct Hoff as [H|H]; [by left|right].
      unfold handler. by rewrite H.
    - unfold handler. rewrite Hnone. constructor. }
  unfold processHandlers. rewrite Hd. simpl.
  unfold and_then, after. simpl. rewrite app_nil_r. by destruct P.
Qed.

Lemma handle_acknowledges_unheard_witness :
  handle widget_engine sample_pipeline widget_world blank_request
  = ({| effects := []; outcome_of := Responded (VNum 200) "ok" |},
     sample_pipeline).
Proof.
  refine (handle_acknowledges_unheard widget_engine sample_pipeline
    widget_world blank_request "widget" "widget:create" widget_envelope
    sample_payload _ _ _ _ _ _ _ _).
  - reflexivity.
  - reflexivity.
  - reflexivity.
  - reflexivity.
  - reflexivity.
  - reflexivity.
  - unfold registry_get. simpl _handlers. by rewrite lookup_empty.
  - right. apply lookup_empty.
Defined.

(** X25. When the three query parameters are present, the resolution
    returns a promise and the fetch of the ship fails, the pipeline
    answers 400 with the text of the fetch error and calls no handler,
    whatever is registered; the failed promise is what the cache now
    holds for the ship. *)
Theorem handle_tenant_failure (E : engine) (P : pipeline) (w : world)
    (req : request) (body : string) (m payload : value) (err : error) (p : nat) :
  let n := VObj [("subject", field m "Subject");
                 ("message", grouped E (verify_options_of (options_of P)) payload);
                 ("timestamp", VDate (field m "Timestamp"))] in
  let req2 := with_notification (with_message req m) n in
  let c := {| organization := config_value (lookup_prop "organization" (query req));
              id := config_value (lookup_prop "ship" (query req));
              secret := config_value (lookup_prop "secret" (query req)) |} in
  let fetched := getCurrentShip E (id c) c (forceShipUpdate req2) (tenants P) in
  read w = ReadText body ->
  JSON_parse E (VStr body) = Some m ->
  field m "Type" = VStr "Notification" ->
  JSON_parse E (field m "Message") = Some payload ->
  truthy (organization c) && truthy (id c) && truthy (secret c) = true ->
  fetched.1 = Thenable p ->
  fate_of w p = Rejects err ->
  (handle E P w req).1
  = {| effects := warning (validation w) m
                  ++ (if Options.onError (options_of P)
                      then [Observed (toString err) (VNum 400)] else []);
       outcome_of := Responded (VNum 400) (toString err) |}
  /\ _cache (tenants (handle E P w req).2) !! property_key E (id c)
     = Some (SPromise p).
Proof.
  intros n req2 c fetched Hread Hp Ht Hmsg Hcfg Hgot Hfate.
  rewrite (handle_notification E P w req body m payload) by done.
  fold n. fold req2.
  pose proof (enrich_resolves E (errorHandler (Options.onError (options_of P)))
                (fate_of w) req2 (tenants P) Hcfg) as He.
  change (getCurrentShip E _ _ (forceShipUpdate req2) (tenants P))
    with fetched in He.
  rewrite Hgot, Hfate in He. rewrite He. simpl. split; [reflexivity|].
  by apply getCurrentShip_stores.
Qed.

Lemma handle_tenant_failure_witness :
  (handle widget_engine widget_pipeline failing_world tenant_request).1
  = {| effects := [] ++ [Observed "Error: boom" (VNum 400)];
       outcome_of := Responded (VNum 400) "Error: boom" |}.
Proof.
  exact (proj1 (handle_tenant_failure widget_engine widget_pipeline
    failing_world tenant_request "widget" widget_envelope sample_payload boom 0
    eq_refl eq_refl eq_refl eq_refl eq_refl eq_refl eq_refl)).
Defined.

Section Timestamps.

Lemma VDate_neq v : v <> VDate v.
Proof.
  induction v as [| | | | | | |arg IH]; try discriminate.
  intros [= H]. by apply IH.
Qed.

End Timestamps.

(** X26. The two notifications a handler can receive carry the time of
    the envelope differently: the notification [verifySignature] builds
    has, as [timestamp], the [Date] made from the envelope's [Timestamp],
    while the notification synthesized for an entry of [events] has the
    envelope's [Timestamp] as it came; the two values are never equal. *)
Theorem synthesized_timestamp_as_received (E : engine) (opts : verify_options)
    (handleError : string -> value -> result) (handshake : bool)
    (req : request) (payload user segments entry : value) :
  field (message (hull req)) "Type" = VStr "Notification" ->
  JSON_parse E (field (message (hull req)) "Message") = Some payload ->
  exists req2,
    route E opts handleError handshake req = continue req2
    /\ message (hull req2) = message (hull req)
    /\ field (notification (hull req2)) "timestamp"
       = VDate (field (message (hull req)) "Timestamp")
    /\ field (event_payload (message (hull req2)) user segments entry) "timestamp"
       = field (message (hull req)) "Timestamp"
    /\ field (event_payload (message (hull req2)) user segments entry) "timestamp"
       <> field (notification (hull req2)) "timestamp".
Proof.
  intros Ht Hp. eexists. split.
  - apply (route_notification E handleError opts handshake req payload);
      [by apply is_string_true|done].
  - simpl. split; [done|]. split; [done|]. split; [done|]. apply VDate_neq.
Qed.

Lemma synthesized_timestamp_as_received_witness :
  field (sample_event (VStr "e1")) "timestamp"
  <> field (notification (hull user_update_request)) "timestamp".
Proof.
  destruct (synthesized_timestamp_as_received sample_engine
              (verify_options_of sample_options) (errorHandler true) true
              (with_message blank_request notification_envelope)
              sample_payload (VObj [("id", VStr "u1")]) (VArr []) (VStr "e1")
              eq_refl eq_refl) as (req2 & Hroute & _ & _ & _ & Hne).
  injection Hroute as <-. exact Hne.
Defined.

(** X27. What a resolution for the ship id [length] does depends on the
    elements of the array.  As long as the array has none, the resolution
    issues its fetch and throws when it stores the promise.  Once a
    resolution for a ship id that is an array index ([0], [7], ...) has
    returned a promise, the array has an element, and an unforced
    resolution for [length] issues no fetch, changes nothing and returns
    the length, a number, which is no promise.  An array index is the
    decimal text, without leading zero, of a number up to 4294967294. *)
Theorem length_reads_elements (E : engine) (shipId lengthId : value)
    (c c' : Client) (force force' : bool) (st : tenant_state) (p : nat) :
  property_key E lengthId = "length" ->
  (has_index (_cache st) = false ->
   (getCurrentShip E lengthId c' force' st).1 = Throws InvalidArrayLength
   /\ fetches (getCurrentShip E lengthId c' force' st).2
      = fetches st ++ [(c', lengthId)])
  /\ (is_array_index (property_key E shipId) = true ->
      (getCurrentShip E shipId c force st).1 = Thenable p ->
      getCurrentShip E lengthId c' false (getCurrentShip E shipId c force st).2
      = (NotThenable, (getCurrentShip E shipId c force st).2))
  /\ (is_array_index "0" = true /\ is_array_index "7" = true
      /\ is_array_index "4294967294" = true
      /\ is_array_index "4294967295" = false
      /\ is_array_index "07" = false /\ is_array_index "-1" = false
      /\ is_array_index "ship1" = false /\ is_array_index "" = false).
Proof.
  intros Hl. split; [|split; [|by repeat split]].
  - intros Hi.
    destruct (getCurrentShip_at_length E lengthId c' force' st Hl Hi)
      as (Hr & Hf & _).
    by split.
  - intros Hi Hp.
    pose proof (getCurrentShip_element E shipId c force st p Hi Hp) as He.
    unfold getCurrentShip at 1. rewrite Hl. unfold cache_get. simpl.
    by rewrite He.
Qed.

Lemma length_reads_elements_witness :
  getCurrentShip sample_engine (VStr "length") (client_for "length") false
    (getCurrentShip sample_engine (VStr "7") (client_for "7") false
       empty_tenants).2
  = (NotThenable,
     (getCurrentShip sample_engine (VStr "7") (client_for "7") false
        empty_tenants).2).
Proof.
  exact (proj1 (proj2 (length_reads_elements sample_engine (VStr "7")
                  (VStr "length") (client_for "7") (client_for "length")
                  false false empty_tenants 0 eq_refl)) eq_refl eq_refl).
Defined.

(** X28. A [user:update] whose payload has, as [events], a value with a
    positive [length] that is no list (a non-empty string, an object with
    such a property), with a handler registered under [event], is
    answered 500 after the handlers of [user:update] were called: the
    call of [events.map] throws inside the try, and the body is the
    engine's text for that exception. *)
Theorem user_update_events_not_a_list (E : engine)
    (handlers : gmap string (list handler)) (onError : bool)
    (trace : list (nat * settlement)) (req : request)
    (subject : string) (payload events len : value)
    (fn : handler) (fns : list handler) :
  let ctx := {| ctx_req := req; ctx_ship := ship (hull req);
                ctx_hull := client (hull req) |} in
  let direct := default [] (handlers !! getHandlerName E subject) in
  let text := fault_text E (NotAFunction "events.map") in
  prop (message (hull req)) "Subject" = Some (VStr subject) ->
  getHandlerName E subject = "user:update" ->
  prop (notification (hull req)) "message" = Some payload ->
  truthy payload = true ->
  field payload "events" = events ->
  events <> VUndefined ->
  (forall items, events <> VArr items) ->
  prop events "length" = Some len ->
  js_gt0 E len = true ->
  handlers !! "event" = Some (fn :: fns) ->
  Forall (fun f => f (notification (hull req)) ctx = Returned) direct ->
  processHandlers E handlers (errorHandler onError) trace req
  = {| effects := map (fun f => Invoked f (notification (hull req)) ctx) direct
                  ++ (if onError then [Observed text (VNum 500)] else []);
       outcome_of := Responded (VNum 500) text |}.
Proof.
  intros ctx direct text Hsubj Hname Hn Ht Hev Hdef Hlist Hlen Hpos Hevent Hret.
  assert (Hplain : Object_prototype (getHandlerName E subject) = None
                   \/ is_Some (handlers !! getHandlerName E subject)).
  { left. by rewrite Hname. }
  unfold processHandlers, dispatch. rewrite Hsubj. fold ctx.
  rewrite (direct_calls E _ _ _ _ Hplain Hret). fold direct.
  unfold handler in *. rewrite Hevent, Hname. simpl default.
  unfold sub_events. rewrite Hn, Ht, Hev. simpl.
  assert (Hsame : or_empty_list events = events) by by destruct events.
  rewrite Hsame, Hlen, Hpos.
  destruct events as [| | | | |items| |]; try (by destruct (Hlist items));
    unfold after, direct; simpl; by rewrite Hname, app_nil_r.
Qed.

Lemma user_update_events_not_a_list_witness :
  processHandlers sample_engine event_listener (errorHandler false) []
    (with_notification user_update_request
       (VObj [("message", VObj [("events", VStr "soon")])]))
  = {| effects := [] ++ [];
       outcome_of :=
         Responded (VNum 500) "TypeError: events.map is not a function" |}.
Proof.
  refine (user_update_events_not_a_list sample_engine event_listener false []
    (with_notification user_update_request
       (VObj [("message", VObj [("events", VStr "soon")])]))
    "user_report:update" (VObj [("events", VStr "soon")]) (VStr "soon")
    (VNum 4) returning [] _ _ _ _ _ _ _ _ _ _ _).
  - reflexivity.
  - reflexivity.
  - reflexivity.
  - reflexivity.
  - reflexivity.
  - discriminate.
  - intros items. discriminate.
  - reflexivity.
  - reflexivity.
  - reflexivity.
  - constructor.
Defined.

(** X29. A request that is no [ship:update], for a ship id that names a
    property the array [_cache] inherits ([constructor], [push],
    [hasOwnProperty], ...) and does not own, never gets its ship: the
    resolution reads the built-in value, issues no fetch and stores the
    value back, and the call of [then] on it throws, so that an exception
    leaves the stage. *)
Theorem inherited_ship_id_escapes (E : engine)
    (handleError : string -> value -> result) (fate_of : nat -> fate)
    (req : request) (st : tenant_state) :
  let c := {| organization := config_value (lookup_prop "organization" (query req));
              id := config_value (lookup_prop "ship" (query req));
              secret := config_value (lookup_prop "secret" (query req)) |} in
  let key := property_key E (id c) in
  truthy (organization c) && truthy (id c) && truthy (secret c) = true ->
  field (message (hull req)) "Subject" <> VStr "ship:update" ->
  key <> "length" ->
  array_inherits E key = true ->
  detached st = false ->
  _cache st !! key = None ->
  enrichWithHullClient E handleError fate_of req st
  = (escaped (NotAFunction "getCurrentShip(...).then"),
     if String.eqb key "__proto__" then st
     else set_cache st (<[key := SNative]> (_cache st))).
Proof.
  intros c key Hc Hsubject Hl Hin Hd Hown.
  rewrite (enrich_resolves E handleError fate_of req st Hc). fold c.
  rewrite (forceShipUpdate_off req Hsubject).
  unfold getCurrentShip, cache_get. fold key.
  rewrite (eqb_length_false _ Hl), Hown, Hd, Hin. simpl.
  unfold cache_keep_builtin. rewrite Hown.
  rewrite bool_decide_eq_true_2 by done. rewrite andb_true_r.
  by destruct (String.eqb key "__proto__").
Qed.

Lemma inherited_ship_id_escapes_witness :
  enrichWithHullClient sample_engine (errorHandler true)
    (fun _ => Resolves sample_ship) (request_for "hasOwnProperty") empty_tenants
  = (escaped (NotAFunction "getCurrentShip(...).then"),
     {| _cache := <["hasOwnProperty" := SNative]> ∅; detached := false;
        fetches := [] |}).
Proof.
  refine (inherited_ship_id_escapes sample_engine (errorHandler true)
            (fun _ => Resolves sample_ship) (request_for "hasOwnProperty")
            empty_tenants eq_refl _ _ eq_refl eq_refl _).
  - discriminate.
  - discriminate.
  - apply lookup_empty.
Defined.

